(** * The Boss: cross-device synchronisation services

    A shallow embedding of the synchronisation layer sketched in the
    implementation plan of the application:

    - [SyncService]              (src/services/SyncService.ts)
    - [DatabaseSyncAdapter]      (src/services/DatabaseSyncAdapter.ts)
    - [ConversationSyncService]  (src/services/ConversationSyncService.ts)
    - [OfflineSyncQueue]         (src/services/OfflineSyncQueue.ts)
    - [EncryptionService]        (src/services/EncryptionService.ts)

    JavaScript objects that are shared by reference (the [Y.Doc] handed to the
    provider, stored in the registry and returned to the caller) live in an
    explicit heap and are named by their allocation number.  A method is a
    function from the world to a new world and an outcome; a thrown [Error]
    is the outcome [Throw msg]. *)

From stdpp Require Import gmap strings list fin_maps pretty.
From Stdlib Require Import ZArith NArith Lia.

Local Open Scope string_scope.
Local Open Scope list_scope.
Local Open Scope nat_scope.

(** ** Outcomes *)

Inductive result (A : Type) : Type :=
| Ok (a : A)
| Throw (msg : string).
Arguments Ok {A} a.
Arguments Throw {A} msg.

(** ** Messages and the Yjs object model (declare module 'yjs') *)

(** [Message] of '@/types', restricted to the fields the services read. *)
Record Message : Type := mkMessage {
  msg_id : string;
  msg_content : string;
  msg_role : string;
  msg_createdAt : N;
  msg_modelId : option string;
  msg_status : option string
}.

(** The object literal built by [serializeMessage]. *)
Record SerializedMessage : Type := mkSerialized {
  ser_id : string;
  ser_content : string;
  ser_role : string;
  ser_timestamp : N;
  ser_modelId : option string;
  ser_status : option string
}.

(** Values stored in the 'metadata' [Y.Map]. *)
Inductive MetaValue : Type :=
| MStr (s : string)
| MNum (n : N).

(** A [Y.Doc]: its 'messages' array and its 'metadata' map. *)
Record YDoc : Type := mkYDoc {
  messages : list SerializedMessage;
  metadata : gmap string MetaValue
}.

(** [new Y.Doc()] *)
Definition newDoc : YDoc := {| messages := []; metadata := ∅ |}.

(** A reference to a [Y.Doc] object. *)
Definition DocRef : Type := nat.

(** ** SyncService *)

Record SyncConfiguration : Type := mkConfig {
  roomPrefix : string;
  signalingServers : list string;
  enableEncryption : bool;
  encryptionKey : option string
}.

(** A [WebrtcProvider]: the constructor arguments and, maintained by the
    library, the peers it is currently connected to ([webrtcPeers] of its
    'peers' event). *)
Record WebrtcProvider : Type := mkProvider {
  prov_room : string;
  prov_doc : DocRef;
  prov_signaling : list string;
  prov_password : option string;
  prov_maxConns : nat;
  prov_filterBcConns : bool;
  prov_webrtcPeers : list string
}.

Inductive ResourceType : Type :=
| conversation
| assistant
| preference.

Definition resourceTypeName (t : ResourceType) : string :=
  match t with
  | conversation => "conversation"
  | assistant => "assistant"
  | preference => "preference"
  end.

(** The fields of a [SyncService] instance. *)
Record SyncService : Type := mkSyncService {
  ydocs : gmap string DocRef;
  providers : gmap string WebrtcProvider;
  config : SyncConfiguration
}.

(** [private constructor(config)] *)
Definition newSyncService (c : SyncConfiguration) : SyncService :=
  {| ydocs := ∅; providers := ∅; config := c |}.

(** [SyncService.getInstance(config?)] over the static field [instance]:
    returns the new content of the static field and the value returned
    ([None] is [undefined]). *)
Definition getInstance (instance : option SyncService)
    (cfg : option SyncConfiguration) : option SyncService * option SyncService :=
  match instance, cfg with
  | None, Some c => (Some (newSyncService c), Some (newSyncService c))
  | _, _ => (instance, instance)
  end.

(** The template string [`${roomPrefix}-${resourceType}-${resourceId}`]. *)
Definition roomName (c : SyncConfiguration) (resourceType resourceId : string) : string :=
  roomPrefix c +:+ "-" +:+ resourceType +:+ "-" +:+ resourceId.

(** ** Observable actions *)

Inductive Level : Type := info | warn | error.

Inductive Event : Type :=
| Log (l : Level) (text : string) (subject : string)
| ProviderCreated (room : string) (doc : DocRef)
| ProviderDestroyed (room : string)
| DocDestroyed (doc : DocRef)
| Transact (doc : DocRef) (pushed : list SerializedMessage)
| Observe (key : string) (doc : DocRef).

(** ** The world *)

Record World : Type := mkWorld {
  heap : gmap DocRef YDoc;                 (* live Y.Doc objects *)
  next_ref : DocRef;                       (* next allocation *)
  sync : SyncService;                      (* the exported [syncService] *)
  syncing : bool;                          (* DatabaseSyncAdapter.syncing *)
  yobservers : gset string;                (* keys of DatabaseSyncAdapter.yobservers *)
  activeConversations : gset string;       (* ConversationSyncService *)
  messageDatabase : option (gmap string (list Message));
  now : N;                                 (* Date.now() *)
  trace : list Event
}.

Definition set_heap (f : gmap DocRef YDoc → gmap DocRef YDoc) (w : World) : World :=
  mkWorld (f (heap w)) (next_ref w) (sync w) (syncing w) (yobservers w)
          (activeConversations w) (messageDatabase w) (now w) (trace w).

Definition set_next_ref (n : DocRef) (w : World) : World :=
  mkWorld (heap w) n (sync w) (syncing w) (yobservers w)
          (activeConversations w) (messageDatabase w) (now w) (trace w).

Definition set_sync (f : SyncService → SyncService) (w : World) : World :=
  mkWorld (heap w) (next_ref w) (f (sync w)) (syncing w) (yobservers w)
          (activeConversations w) (messageDatabase w) (now w) (trace w).

Definition set_syncing (b : bool) (w : World) : World :=
  mkWorld (heap w) (next_ref w) (sync w) b (yobservers w)
          (activeConversations w) (messageDatabase w) (now w) (trace w).

Definition set_yobservers (f : gset string → gset string) (w : World) : World :=
  mkWorld (heap w) (next_ref w) (sync w) (syncing w) (f (yobservers w))
          (activeConversations w) (messageDatabase w) (now w) (trace w).

Definition set_active (f : gset string → gset string) (w : World) : World :=
  mkWorld (heap w) (next_ref w) (sync w) (syncing w) (yobservers w)
          (f (activeConversations w)) (messageDatabase w) (now w) (trace w).

Definition emit (e : Event) (w : World) : World :=
  mkWorld (heap w) (next_ref w) (sync w) (syncing w) (yobservers w)
          (activeConversations w) (messageDatabase w) (now w) (trace w ++ [e]).

Definition set_ydocs (f : gmap string DocRef → gmap string DocRef) (s : SyncService) : SyncService :=
  {| ydocs := f (ydocs s); providers := providers s; config := config s |}.

Definition set_providers (f : gmap string WebrtcProvider → gmap string WebrtcProvider)
    (s : SyncService) : SyncService :=
  {| ydocs := ydocs s; providers := f (providers s); config := config s |}.

(** *** SyncService methods *)

(** [createSyncDocument(resourceType, resourceId)]: a new document and a new
    provider over it, both registered under the room name. *)
Definition createSyncDocument (w : World) (resourceType : ResourceType)
    (resourceId : string) : World * (DocRef * WebrtcProvider) :=
  let c := config (sync w) in
  let room := roomName c (resourceTypeName resourceType) resourceId in
  let w := emit (Log info "Creating sync document" room) w in
  let ydoc := next_ref w in
  let w := set_next_ref (S ydoc) (set_heap (insert ydoc newDoc) w) in
  let provider :=
    {| prov_room := room; prov_doc := ydoc;
       prov_signaling := signalingServers c;
       prov_password := encryptionKey c;
       prov_maxConns := 10;
       prov_filterBcConns := true;
       prov_webrtcPeers := [] |} in
  let w := emit (ProviderCreated room ydoc) w in
  let w := set_sync (set_ydocs (insert room ydoc)) w in
  let w := set_sync (set_providers (insert room provider)) w in
  (w, (ydoc, provider)).

(** [destroySyncDocument(resourceType, resourceId)] *)
Definition destroySyncDocument (w : World) (resourceType resourceId : string) : World :=
  let room := roomName (config (sync w)) resourceType resourceId in
  let w :=
    match providers (sync w) !! room with
    | Some _ => set_sync (set_providers (delete room)) (emit (ProviderDestroyed room) w)
    | None => w
    end in
  let w :=
    match ydocs (sync w) !! room with
    | Some ydoc =>
        set_sync (set_ydocs (delete room))
                 (set_heap (delete ydoc) (emit (DocDestroyed ydoc) w))
    | None => w
    end in
  emit (Log info "Destroyed sync document" room) w.

(** [getSyncDocument(resourceType, resourceId)] *)
Definition getSyncDocument (w : World) (resourceType resourceId : string) : option DocRef :=
  ydocs (sync w) !! roomName (config (sync w)) resourceType resourceId.

(** The 'peers' event of a provider: the library updates the provider's
    peer list and the handler installed by [setupProviderEventHandlers]
    logs the change. *)
Definition onPeers (w : World) (room : string) (webrtcPeers : list string) : World :=
  let upd (p : WebrtcProvider) :=
    {| prov_room := prov_room p; prov_doc := prov_doc p;
       prov_signaling := prov_signaling p; prov_password := prov_password p;
       prov_maxConns := prov_maxConns p; prov_filterBcConns := prov_filterBcConns p;
       prov_webrtcPeers := webrtcPeers |} in
  emit (Log info "Peers changed" room)
       (set_sync (set_providers (alter upd room)) w).

(** ** DatabaseSyncAdapter *)

(** [serializeMessage(message)] *)
Definition serializeMessage (m : Message) : SerializedMessage :=
  {| ser_id := msg_id m;
     ser_content := msg_content m;
     ser_role := msg_role m;
     ser_timestamp := msg_createdAt m;
     ser_modelId := msg_modelId m;
     ser_status := msg_status m |}.

(** JavaScript truthiness of an optional string, for [x || 'success']. *)
Definition orElse (o : option string) (d : string) : string :=
  match o with
  | Some "" | None => d
  | Some s => s
  end.

(** [deserializeMessage(data)] *)
Definition deserializeMessage (d : SerializedMessage) : Message :=
  {| msg_id := ser_id d;
     msg_content := ser_content d;
     msg_role := ser_role d;
     msg_createdAt := ser_timestamp d;
     msg_modelId := ser_modelId d;
     msg_status := Some (orElse (ser_status d) "success") |}.

(** Modelled from the spec: the datastore read
    [listEntries(resourceId) -> ordered sequence of Entry], called
    [messageDatabase.getMessagesByTopicId] by the adapter; the database module
    itself is not part of the sources.  An unavailable datastore rejects. *)
Definition getMessagesByTopicId (w : World) (topicId : string) : result (list Message) :=
  match messageDatabase w with
  | Some db => Ok (default [] (db !! topicId))
  | None => Throw "Datastore unavailable"
  end.

(** [yarray.push(items)] inside a transaction on the document [ydoc]. *)
Definition pushMessages (items : list SerializedMessage) (d : YDoc) : YDoc :=
  {| messages := messages d ++ items; metadata := metadata d |}.

(** [ymeta.set(key, value)] *)
Definition setMeta (key : string) (v : MetaValue) (d : YDoc) : YDoc :=
  {| messages := messages d; metadata := <[key := v]> (metadata d) |}.

(** The body of the hydration transaction of [initializeConversationSync]. *)
Definition hydrate (topicId : string) (stamp : N) (msgs : list Message) (d : YDoc) : YDoc :=
  setMeta "device" (MStr "mobile")
    (setMeta "lastSyncedAt" (MNum stamp)
      (setMeta "topicId" (MStr topicId)
        (pushMessages (map serializeMessage msgs) d))).

(** [setupYjsToDatabase(topicId, yarray)]: the observer is attached to the
    array and remembered under its key.  What the observer does when Yjs
    later calls it depends on the shape of Yjs change events, which the
    sources do not fix; only its registration is recorded. *)
Definition setupYjsToDatabase (w : World) (topicId : string) (ydoc : DocRef) : World :=
  let observerKey := "yjs-to-db-" +:+ topicId in
  set_yobservers (union {[observerKey]}) (emit (Observe observerKey ydoc) w).

(** [setupDatabaseToYjs(topicId, yarray)] *)
Definition setupDatabaseToYjs (w : World) (topicId : string) : World :=
  emit (Log info "Database to Yjs sync configured" topicId) w.

(** [initializeConversationSync(topicId, ydoc)] *)
Definition initializeConversationSync (w : World) (topicId : string) (ydoc : DocRef)
    : World * result unit :=
  if syncing w then
    (emit (Log warn "Sync already in progress" topicId) w, Ok tt)
  else
    let w := set_syncing true w in
    let w := emit (Log info "Initializing conversation sync" topicId) w in
    match getMessagesByTopicId w topicId with
    | Throw e => (set_syncing false w, Throw e)
    | Ok msgs =>
        let w := set_heap (alter (hydrate topicId (now w) msgs) ydoc) w in
        let w := emit (Transact ydoc (map serializeMessage msgs)) w in
        let w := setupYjsToDatabase w topicId ydoc in
        let w := setupDatabaseToYjs w topicId in
        let w := emit (Log info "Conversation sync initialized" topicId) w in
        (set_syncing false w, Ok tt)
    end.

(** [cleanupConversationSync(topicId)] *)
Definition cleanupConversationSync (w : World) (topicId : string) : World :=
  let observerKey := "yjs-to-db-" +:+ topicId in
  emit (Log info "Conversation sync cleaned up" topicId)
       (set_yobservers (λ s, s ∖ {[observerKey]}) w).

(** ** ConversationSyncService *)

(** [startConversationSync(topicId)] *)
Definition startConversationSync (w : World) (topicId : string) : World * result unit :=
  if decide (topicId ∈ activeConversations w) then
    (emit (Log warn "Conversation already syncing" topicId) w, Ok tt)
  else
    let w := emit (Log info "Starting conversation sync" topicId) w in
    let '(w, (ydoc, _)) := createSyncDocument w conversation topicId in
    match initializeConversationSync w topicId ydoc with
    | (w, Throw e) =>
        (emit (Log error "Failed to start conversation sync" topicId) w, Throw e)
    | (w, Ok _) =>
        let w := set_active (union {[topicId]}) w in
        (emit (Log info "Conversation sync started successfully" topicId) w, Ok tt)
    end.

(** [stopConversationSync(topicId)] *)
Definition stopConversationSync (w : World) (topicId : string) : World :=
  if decide (topicId ∈ activeConversations w) then
    let w := emit (Log info "Stopping conversation sync" topicId) w in
    let w := cleanupConversationSync w topicId in
    let w := destroySyncDocument w "conversation" topicId in
    let w := set_active (λ s, s ∖ {[topicId]}) w in
    emit (Log info "Conversation sync stopped" topicId) w
  else w.

(** [sendMessage(topicId, message)].  The transaction is recorded in the
    trace; what an observer attached to the array does when Yjs calls it at
    the end of the transaction is left open (see [setupYjsToDatabase]), so
    nothing is said here about the datastore after a successful send. *)
Definition sendMessage (w : World) (topicId : string) (message : Message)
    : World * result unit :=
  match getSyncDocument w "conversation" topicId with
  | None => (w, Throw "Conversation not initialized for sync")
  | Some ydoc =>
      let item := serializeMessage message in
      let w := set_heap (alter (pushMessages [item]) ydoc) w in
      let w := emit (Transact ydoc [item]) w in
      (emit (Log info "Message sent and synced" topicId) w, Ok tt)
  end.

Record SyncStatus : Type := mkStatus {
  isActive : bool;
  peerCount : nat;
  lastSyncedAt : option MetaValue
}.

(** JavaScript [value || null]. *)
Definition orNull (o : option MetaValue) : option MetaValue :=
  match o with
  | Some (MNum 0%N) | Some (MStr "") | None => None
  | Some v => Some v
  end.

(** [ydoc.getMap('metadata')] read through the reference. *)
Definition metadataOf (w : World) (ydoc : DocRef) : gmap string MetaValue :=
  match heap w !! ydoc with
  | Some d => metadata d
  | None => ∅
  end.

(** [getSyncStatus(topicId)] *)
Definition getSyncStatus (w : World) (topicId : string) : SyncStatus :=
  match getSyncDocument w "conversation" topicId with
  | None => {| isActive := false; peerCount := 0; lastSyncedAt := None |}
  | Some ydoc =>
      {| isActive := bool_decide (topicId ∈ activeConversations w);
         peerCount := 0;
         lastSyncedAt := orNull (metadataOf w ydoc !! "lastSyncedAt") |}
  end.

(** The number of peers the provider of a conversation is connected to. *)
Definition connectedPeers (w : World) (topicId : string) : nat :=
  match providers (sync w) !! roomName (config (sync w)) "conversation" topicId with
  | Some p => length (prov_webrtcPeers p)
  | None => 0
  end.

(** The configuration literal of the exported [syncService]; the key is read
    from the environment. *)
Definition defaultConfig (envKey : option string) : SyncConfiguration :=
  {| roomPrefix := "the-boss";
     signalingServers :=
       ["wss://signaling.yjs.dev";
        "wss://y-webrtc-signaling-us.herokuapp.com";
        "wss://y-webrtc-signaling-eu.herokuapp.com"];
     enableEncryption := true;
     encryptionKey := envKey |}.

(** The world right after the service modules are loaded. *)
Definition initialWorld (envKey : option string)
    (db : option (gmap string (list Message))) (clock : N) : World :=
  {| heap := ∅; next_ref := 0;
     sync := newSyncService (defaultConfig envKey);
     syncing := false; yobservers := ∅; activeConversations := ∅;
     messageDatabase := db; now := clock; trace := [] |}.

(** ** OfflineSyncQueue *)

(** ['message' | 'edit' | 'delete'] *)
Inductive UpdateType : Type :=
| TMessage
| TEdit
| TDelete.

Record QueuedUpdate : Type := mkQueued {
  q_id : string;
  q_type : UpdateType;
  q_topicId : string;
  q_data : SerializedMessage;
  q_timestamp : N;
  q_retryCount : nat
}.

Definition QUEUE_KEY : string := "@the-boss/offline-sync-queue".

(** The queue object, the documents it writes to, and AsyncStorage.  The
    stored item is kept as the list it is the JSON text of
    ([JSON.parse (JSON.stringify q) = q]); storage reads and writes are
    taken to succeed. *)
Record QState : Type := mkQState {
  qworld : World;
  queue : list QueuedUpdate;
  isProcessing : bool;
  asyncStorage : gmap string (list QueuedUpdate)
}.

(** What a drain does that outlives the process: a mutation reaching its
    document, a write of the log to storage, a reported discard. *)
Inductive Effect : Type :=
| Applied (u : QueuedUpdate)
| Persisted (q : list QueuedUpdate)
| Discarded (u : QueuedUpdate).

(** [new OfflineSyncQueue()] in a process that finds storage [st]. *)
Definition newQueue (w : World) (st : gmap string (list QueuedUpdate)) : QState :=
  {| qworld := w; queue := []; isProcessing := false; asyncStorage := st |}.

(** [initialize()] *)
Definition initialize (s : QState) : QState :=
  match asyncStorage s !! QUEUE_KEY with
  | Some queueData =>
      {| qworld := qworld s; queue := queueData;
         isProcessing := isProcessing s; asyncStorage := asyncStorage s |}
  | None => s
  end.

(** [persistQueue()] applied to the queue field [q]. *)
Definition persistQueue (q : list QueuedUpdate)
    (st : gmap string (list QueuedUpdate)) : gmap string (list QueuedUpdate) :=
  <[QUEUE_KEY := q]> st.

(** [enqueue(update)]: [rnd] is the text of the [Math.random()] drawn. *)
Definition enqueue (s : QState) (type : UpdateType) (topicId : string)
    (data : SerializedMessage) (rnd : string) : QState :=
  let t := now (qworld s) in
  let queuedUpdate :=
    {| q_id := "q-" +:+ pretty t +:+ "-" +:+ rnd;
       q_type := type; q_topicId := topicId; q_data := data;
       q_timestamp := t; q_retryCount := 0 |} in
  let q := (queue s ++ [queuedUpdate])%list in
  {| qworld := qworld s; queue := q; isProcessing := isProcessing s;
     asyncStorage := persistQueue q (asyncStorage s) |}.

(** [applyUpdate(update)]: only a 'message' changes the array; the other
    two branches of the transaction are empty. *)
Definition applyUpdate (w : World) (update : QueuedUpdate) : World * result unit :=
  match getSyncDocument w "conversation" (q_topicId update) with
  | None => (w, Throw "Conversation not initialized for sync")
  | Some ydoc =>
      let items :=
        match q_type update with
        | TMessage => [q_data update]
        | TEdit => []
        | TDelete => []
        end in
      (emit (Transact ydoc items) (set_heap (alter (pushMessages items) ydoc) w), Ok tt)
  end.

(** [update.retryCount++] *)
Definition bumpRetry (u : QueuedUpdate) : QueuedUpdate :=
  {| q_id := q_id u; q_type := q_type u; q_topicId := q_topicId u;
     q_data := q_data u; q_timestamp := q_timestamp u;
     q_retryCount := S (q_retryCount u) |}.

(** The [while (this.queue.length > 0)] loop of [processQueue], by recursion
    on the queue: every iteration either shifts the head or breaks.  Returns
    the world, the storage, the queue left in memory and the effects in the
    order they happen. *)
Fixpoint drainLoop (w : World) (st : gmap string (list QueuedUpdate))
    (q : list QueuedUpdate)
    : World * gmap string (list QueuedUpdate) * list QueuedUpdate * list Effect :=
  match q with
  | [] => (w, st, [], [])
  | update :: rest =>
      match applyUpdate w update with
      | (w, Ok _) =>
          (* this.queue.shift(); await this.persistQueue() *)
          let st := persistQueue rest st in
          let '(w, st, q', effs) := drainLoop w st rest in
          (w, st, q', Applied update :: Persisted rest :: effs)
      | (w, Throw _) =>
          let update := bumpRetry update in
          if (3 <=? q_retryCount update)%nat then
            (* this.queue.shift(); logger.error(...) *)
            let w := emit (Log error "Update failed after 3 retries, discarding"
                               (q_id update)) w in
            let '(w, st, q', effs) := drainLoop w st rest in
            (w, st, q', Discarded update :: effs)
          else
            (* break *)
            (w, st, update :: rest, [])
      end
  end.

(** [processQueue()] *)
Definition processQueue (s : QState) : QState * list Effect :=
  if isProcessing s || bool_decide (length (queue s) = 0) then (s, [])
  else
    let '(w, st, q, effs) := drainLoop (qworld s) (asyncStorage s) (queue s) in
    ({| qworld := w; queue := q; isProcessing := false; asyncStorage := st |}, effs).

(** *** Crash and recovery *)

(** The log found in storage. *)
Definition storedLog (st : gmap string (list QueuedUpdate)) : list QueuedUpdate :=
  default [] (st !! QUEUE_KEY).

(** Storage as left by the effects that happened before a crash. *)
Definition durableAfter (st : gmap string (list QueuedUpdate)) (effs : list Effect)
    : gmap string (list QueuedUpdate) :=
  foldl (λ st e, match e with Persisted q => persistQueue q st | _ => st end) st effs.

(** The mutations that reached a document, in order. *)
Definition appliedOf (effs : list Effect) : list QueuedUpdate :=
  flat_map (λ e, match e with Applied u => [u] | _ => [] end) effs.

(** The process dies after the first [k] effects of a drain of [s]; a new
    process, whose documents are those of [w2], loads the queue and drains
    it.  All effects, before and after the crash. *)
Definition crashRecover (s : QState) (k : nat) (w2 : World) : list Effect :=
  let before := take k (snd (processQueue s)) in
  let s2 := initialize (newQueue w2 (durableAfter (asyncStorage s) before)) in
  (before ++ snd (processQueue s2))%list.

(** *** A drain seen from outside *)

(** The queue object as another caller finds it while [processQueue] is
    suspended at one of its awaits, in the order of the suspensions: in
    [await this.applyUpdate(update)], after the body of [applyUpdate] has run,
    and, when that succeeded, in [await this.persistQueue()], after the
    shift and before the write to storage has completed.  The flag was set
    before the loop and is cleared only in [finally]. *)
Fixpoint drainSuspensions (w : World) (st : gmap string (list QueuedUpdate))
    (q : list QueuedUpdate) : list QState :=
  match q with
  | [] => []
  | update :: rest =>
      match applyUpdate w update with
      | (w, Ok _) =>
          mkQState w (update :: rest) true st
          :: mkQState w rest true st
          :: drainSuspensions w (persistQueue rest st) rest
      | (w, Throw _) =>
          mkQState w (update :: rest) true st
          :: (let update := bumpRetry update in
              if (3 <=? q_retryCount update)%nat then
                drainSuspensions
                  (emit (Log error "Update failed after 3 retries, discarding"
                             (q_id update)) w) st rest
              else [])
      end
  end.

(** The course of a drain of the queue [q] in a process whose documents are
    those of [w]: the effects, and the queue left in memory.  The head is
    handled first.  With its document in place it is applied and the log
    without it stored, then the rest is drained; without document it is
    discarded at the retry ceiling and the rest is drained, or, below the
    ceiling, it stays at the head with its retry count raised and the drain
    ends. *)
Inductive drainShape (w : World)
    : list QueuedUpdate → list Effect → list QueuedUpdate → Prop :=
| shape_done : drainShape w [] [] []
| shape_applied (u : QueuedUpdate) (rest : list QueuedUpdate)
      (effs : list Effect) (q' : list QueuedUpdate) :
    is_Some (getSyncDocument w "conversation" (q_topicId u)) →
    drainShape w rest effs q' →
    drainShape w (u :: rest) (Applied u :: Persisted rest :: effs) q'
| shape_discarded (u : QueuedUpdate) (rest : list QueuedUpdate)
      (effs : list Effect) (q' : list QueuedUpdate) :
    getSyncDocument w "conversation" (q_topicId u) = None →
    3 ≤ S (q_retryCount u) →
    drainShape w rest effs q' →
    drainShape w (u :: rest) (Discarded (bumpRetry u) :: effs) q'
| shape_blocked (u : QueuedUpdate) (rest : list QueuedUpdate) :
    getSyncDocument w "conversation" (q_topicId u) = None →
    S (q_retryCount u) < 3 →
    drainShape w (u :: rest) [] (bumpRetry u :: rest).

(** ** EncryptionService *)

(** A [Uint8Array]: its elements, each in [0, 256). *)
Abbreviation bytes := (list Z) (only parsing).

(** The part of the tweetnacl API the service calls.  [box_open_after]
    answers [None] where the library returns [null]. *)
Class NaclBox : Type := mkNaclBox {
  nonceLength : nat;                                   (* nacl.box.nonceLength *)
  sharedKeyLength : nat;                               (* nacl.box.sharedKeyLength *)
  box_before : bytes → bytes → bytes;                  (* nacl.box.before *)
  box_after : bytes → bytes → bytes → bytes;           (* nacl.box.after *)
  box_open_after : bytes → bytes → bytes → option bytes   (* nacl.box.open.after *)
}.

Record EncryptionService : Type := mkEncryption {
  publicKey : bytes;
  secretKey : bytes;
  sharedKey : option bytes
}.

(** [setSharedKey(peerPublicKey)], on the decoded key. *)
Definition setSharedKey `{NaclBox} (svc : EncryptionService) (peerPublicKeyBytes : bytes)
    : EncryptionService :=
  {| publicKey := publicKey svc; secretKey := secretKey svc;
     sharedKey := Some (box_before peerPublicKeyBytes (secretKey svc)) |}.

(** [encrypt(data)]: [nonce] is what [nacl.randomBytes(nacl.box.nonceLength)]
    returned. *)
Definition encrypt `{NaclBox} (svc : EncryptionService) (nonce : bytes) (data : bytes)
    : result bytes :=
  match sharedKey svc with
  | None => Throw "Shared key not established"
  | Some key =>
      let encrypted := box_after data nonce key in
      Ok (nonce ++ encrypted)%list
  end.

(** [encrypted.slice(0, n)] and [encrypted.slice(n)] *)
Definition sliceTo (n : nat) (a : bytes) : bytes := take n a.
Definition sliceFrom (n : nat) (a : bytes) : bytes := drop n a.

(** [decrypt(encrypted)] *)
Definition decrypt `{NaclBox} (svc : EncryptionService) (encrypted : bytes) : result bytes :=
  match sharedKey svc with
  | None => Throw "Shared key not established"
  | Some key =>
      let nonce := sliceTo nonceLength encrypted in
      let ciphertext := sliceFrom nonceLength encrypted in
      match box_open_after ciphertext nonce key with
      | None => Throw "Decryption failed"
      | Some decrypted => Ok decrypted
      end
  end.

(** The step "decrypt incoming updates" of [setupEncryptedSync]: the frame is
    decrypted and the plaintext handed to [Y.applyUpdate]; an exception of the
    decryption leaves the statement after it unexecuted.  [applyUpdate] is the
    library's merge, [D] its document. *)
Definition receiveEncryptedUpdate `{NaclBox} {D : Type} (applyUpdate : D → bytes → D)
    (svc : EncryptionService) (ydoc : D) (frame : bytes) : D * result unit :=
  match decrypt svc frame with
  | Throw e => (ydoc, Throw e)
  | Ok decryptedUpdate => (applyUpdate ydoc decryptedUpdate, Ok tt)
  end.

(** One bit of one byte of a frame inverted: bit [j] of the byte at [i]. *)
Definition flipBit (frame : bytes) (i j : nat) : bytes :=
  match frame !! i with
  | Some b => <[i := Z.lxor b (2 ^ Z.of_nat j)]> frame
  | None => frame
  end.

(** A box that is checked by comparison: the sealed text carries the key, the
    nonce and the message twice.  It has no secrecy; it serves to run the
    service on concrete frames. *)
Definition plainBoxOpen (c n k : bytes) : option bytes :=
  let body := drop (length k + length n) c in
  let m := take (length body / 2) body in
  if decide (c = (k ++ n ++ m ++ m)%list) then Some m else None.

Definition plainBox : NaclBox :=
  {| nonceLength := 24;
     sharedKeyLength := 32;
     box_before := λ pk sk, take 32 (pk ++ sk ++ replicate 32 0%Z)%list;
     box_after := λ m n k, (k ++ n ++ m ++ m)%list;
     box_open_after := plainBoxOpen |}.

(** ** Document Store *)

(** The sources hand merging to the Yjs library ([Y.applyUpdate],
    [WebrtcProvider]); its code is not part of the repository.  The
    definitions of this part follow the specification of the Document Store
    (data model and contract of the component). *)

(** Modelled from the spec: the operation of a mutation descriptor, a closed
    variant append / edit / delete. *)
Inductive MutationKind : Type :=
| KAppend
| KEdit
| KDelete.

(** Modelled from the spec: an Entry of a Document: identifier, payload,
    author/role tag, creation timestamp, soft-delete tombstone flag. *)
Record Entry : Type := mkEntry {
  entry_id : string;
  entry_payload : string;
  entry_author : string;
  entry_createdAt : N;
  entry_tombstone : bool
}.

(** Modelled from the spec: an Update: causal metadata (the timestamp and the
    peer that produced it), the operation and the entry payload it carries. *)
Record Update : Type := mkUpdate {
  upd_timestamp : N;
  upd_peerId : N;
  upd_kind : MutationKind;
  upd_entry : string;
  upd_payload : string;
  upd_author : string;
  upd_createdAt : N
}.

Global Instance MutationKind_eq_dec : EqDecision MutationKind.
Proof. solve_decision. Defined.

Global Instance Update_eq_dec : EqDecision Update.
Proof. solve_decision. Defined.

Global Instance MutationKind_countable : Countable MutationKind.
Proof.
  refine (inj_countable'
            (λ k, match k with KAppend => 0 | KEdit => 1 | KDelete => 2 end)
            (λ n, match n with 0 => KAppend | 1 => KEdit | _ => KDelete end) _).
  intros []; reflexivity.
Defined.

Global Instance Update_countable : Countable Update.
Proof.
  refine (inj_countable'
            (λ u, (upd_timestamp u, upd_peerId u, upd_kind u, upd_entry u,
                   upd_payload u, upd_author u, upd_createdAt u))
            (λ t, let '(ts, p, k, e, pl, a, c) := t in mkUpdate ts p k e pl a c) _).
  intros []; reflexivity.
Defined.

(** Modelled from the spec: the serialised form of an Update, a number that
    determines the Update. *)
Definition updateCode (u : Update) : positive := encode u.

(** Modelled from the spec: a Document keeps every Update merged into it (the
    causal history, from which a losing alternative is never dropped), in the
    order of arrival. *)
Record Document : Type := mkDocument {
  history : list Update
}.

(** Modelled from the spec: [open] creates an empty Document. *)
Definition emptyDocument : Document := {| history := [] |}.

(** Modelled from the spec: [mergeRemoteUpdate(doc, update)]: an Update
    already in the causal history is merged exactly once, so merging it again
    changes nothing; a new one joins the history. *)
Definition mergeRemoteUpdate (doc : Document) (u : Update) : Document :=
  if bool_decide (u ∈ history doc) then doc
  else {| history := history doc ++ [u] |}.

(** Modelled from the spec: Updates merged one after the other, as they
    arrive at a replica. *)
Definition mergeAll (doc : Document) (us : list Update) : Document :=
  foldl mergeRemoteUpdate doc us.

(** Modelled from the spec: the tie-break "higher (timestamp, peerId) wins":
    [stampLt u v] when [v] wins over [u]. *)
Definition stampLt (u v : Update) : bool :=
  (upd_timestamp u <? upd_timestamp v)%N
  || ((upd_timestamp u =? upd_timestamp v)%N && (upd_peerId u <? upd_peerId v)%N).

(** Modelled from the spec: the tie-break is deterministic, so that the
    winner is a function of the set of Updates merged: higher (timestamp,
    peerId) wins, and two different Updates that carry the same stamp are
    ranked by their serialised form.  [ranksBelow u v] when [v] wins over
    [u]. *)
Definition ranksBelow (u v : Update) : bool :=
  stampLt u v
  || ((upd_timestamp u =? upd_timestamp v)%N && (upd_peerId u =? upd_peerId v)%N
      && (updateCode u <? updateCode v)%positive).

(** Modelled from the spec: conflicting edits of the same Entry are resolved
    by the tie-break: [u] replaces the holder of its Entry when it wins over
    it. *)
Definition contend (winners : gmap string Update) (u : Update) : gmap string Update :=
  match winners !! upd_entry u with
  | None => <[upd_entry u := u]> winners
  | Some v => if ranksBelow v u then <[upd_entry u := u]> winners else winners
  end.

(** Modelled from the spec: the winner for each Entry, computed from the
    causal history. *)
Definition winning (doc : Document) : gmap string Update :=
  foldl contend ∅ (history doc).

(** Modelled from the spec: the Entry an Update leaves; a delete leaves a
    tombstone instead of removing the Entry. *)
Definition entryOf (u : Update) : Entry :=
  {| entry_id := upd_entry u;
     entry_payload := upd_payload u;
     entry_author := upd_author u;
     entry_createdAt := upd_createdAt u;
     entry_tombstone := match upd_kind u with KDelete => true | _ => false end |}.

(** Modelled from the spec: the order of the sequence, by creation
    timestamp; entries of equal creation time by identifier. *)
Definition entryLe (a b : Entry) : bool :=
  (entry_createdAt a <? entry_createdAt b)%N
  || ((entry_createdAt a =? entry_createdAt b)%N
      && negb (String.ltb (entry_id b) (entry_id a))).

Fixpoint insertEntry (e : Entry) (l : list Entry) : list Entry :=
  match l with
  | [] => [e]
  | x :: t => if entryLe e x then e :: x :: t else x :: insertEntry e t
  end.

Definition sortEntries (l : list Entry) : list Entry :=
  foldr insertEntry [] l.

(** Modelled from the spec: the visible Entry sequence of a Document: per
    Entry the winner of the tie-break, tombstones applied, in creation
    order. *)
Definition visible (doc : Document) : list Entry :=
  sortEntries
    (filter (λ e, entry_tombstone e = false)
            (map (λ p, entryOf (snd p)) (map_to_list (winning doc)))).

(** ** useMessageActions and SyncStatusIndicator *)

Definition set_messageDatabase
    (f : option (gmap string (list Message)) → option (gmap string (list Message)))
    (w : World) : World :=
  mkWorld (heap w) (next_ref w) (sync w) (syncing w) (yobservers w)
          (activeConversations w) (f (messageDatabase w)) (now w) (trace w).

(** Insert [m] into a stored sequence, in place of the message with its
    identifier when there is one. *)
Fixpoint upsertInto (m : Message) (l : list Message) : list Message :=
  match l with
  | [] => [m]
  | x :: t => if decide (msg_id x = msg_id m) then m :: t else x :: upsertInto m t
  end.

(** Modelled from the spec: the datastore write [upsertEntry(resourceId,
    Entry)], called [messageDatabase.upsertMessages] by the hook; the
    database module itself is not part of the sources.  An unavailable
    datastore rejects. *)
Definition upsertMessages (w : World) (topicId : string) (m : Message) : World * result unit :=
  match messageDatabase w with
  | Some db =>
      (set_messageDatabase
         (λ _, Some (<[topicId := upsertInto m (default [] (db !! topicId))]> db)) w,
       Ok tt)
  | None => (w, Throw "Datastore unavailable")
  end.

(** The statement [if (getSyncStatus(topic.id).isActive) await sendMessage(...)]
    of the hook. *)
Definition syncIfActive (w : World) (topicId : string) (newMessage : Message)
    : World * result unit :=
  if isActive (getSyncStatus w topicId) then sendMessage w topicId newMessage
  else (w, Ok tt).

(** [sendMessage] of [useMessageActions], for the current topic [topicId] and
    the message [newMessage] made from the content. *)
Definition hookSendMessage (w : World) (topicId : string) (newMessage : Message)
    : World * result unit :=
  match upsertMessages w topicId newMessage with
  | (w, Throw e) => (w, Throw e)
  | (w, Ok _) => syncIfActive w topicId newMessage
  end.

(** The class of the dot drawn by [SyncStatusIndicator]. *)
Definition indicatorDot (s : SyncStatus) : string :=
  if isActive s then
    if 0 <? peerCount s then "bg-green-500" else "bg-yellow-500"
  else "bg-gray-400".

(** The label drawn by [SyncStatusIndicator]. *)
Definition indicatorText (s : SyncStatus) : string :=
  if isActive s then "Synced • " +:+ pretty (peerCount s) +:+ " peer(s)"
  else "Sync disabled".

(** ** PresenceService *)

(** A JavaScript string as its UTF-16 code units. *)
Abbreviation codeUnits := (list N) (only parsing).

Record UserPresence : Type := mkPresence {
  userId : codeUnits;
  userName : string;
  deviceType : string;
  color : option string;                 (* [None] is [undefined] *)
  activeMessageId : option string;       (* [None] is [null] *)
  lastActivity : Z
}.

(** An awareness state: the keys the service reads or writes.  A key that is
    absent from the object is [None]. *)
Record AwarenessState : Type := mkAwState {
  st_user : option UserPresence;
  st_activeMessageId : option (option string);
  st_lastActivity : option Z
}.

(** The [Awareness] of y-protocols, as the service uses it: the states by
    client in the order of a JavaScript [Map], and the local client. *)
Record Awareness : Type := mkAwareness {
  clientID : N;
  states : list (N * AwarenessState)
}.

(** [Map.prototype.set]: an existing key keeps its place. *)
Fixpoint mapSet (k : N) (v : AwarenessState) (l : list (N * AwarenessState))
    : list (N * AwarenessState) :=
  match l with
  | [] => [(k, v)]
  | (k', v') :: t => if decide (k' = k) then (k, v) :: t else (k', v') :: mapSet k v t
  end.

Fixpoint mapGet (k : N) (l : list (N * AwarenessState)) : option AwarenessState :=
  match l with
  | [] => None
  | (k', v') :: t => if decide (k' = k) then Some v' else mapGet k t
  end.

(** [awareness.setLocalState(state)] *)
Definition setLocalState (a : Awareness) (st : AwarenessState) : Awareness :=
  {| clientID := clientID a; states := mapSet (clientID a) st (states a) |}.

(** [awareness.setLocalStateField(field, value)]: the local state with the
    key [field] replaced, nothing when there is no local state. *)
Definition setLocalStateField (a : Awareness) (upd : AwarenessState → AwarenessState)
    : Awareness :=
  match mapGet (clientID a) (states a) with
  | Some st => setLocalState a (upd st)
  | None => a
  end.

Definition presenceColors : list string :=
  ["#FF5500"; "#00A3A3"; "#4D9FFF"; "#9D8DF1"; "#FFDD00"].

(** [generateUserColor()]: [charCodeAt(0)] of an empty string is [NaN], and
    so is the index, which selects [undefined]. *)
Definition generateUserColor (localUserId : codeUnits) : option string :=
  match localUserId with
  | [] => None
  | c :: _ => presenceColors !! N.to_nat (c mod 5)
  end.

(** [initializeLocalPresence()] at time [t]. *)
Definition initializeLocalPresence (a : Awareness) (localUserId : codeUnits) (t : Z)
    : Awareness :=
  setLocalState a
    {| st_user := Some {| userId := localUserId;
                          userName := "Mobile User";
                          deviceType := "mobile";
                          color := generateUserColor localUserId;
                          activeMessageId := None;
                          lastActivity := t |};
       st_activeMessageId := None;
       st_lastActivity := None |}.

(** [updateActivity(messageId)] at time [t]: two fields of the local state
    are set, 'activeMessageId' and 'lastActivity'. *)
Definition updateActivity (a : Awareness) (messageId : option string) (t : Z) : Awareness :=
  let a := setLocalStateField a
             (λ st, mkAwState (st_user st) (Some messageId) (st_lastActivity st)) in
  setLocalStateField a
    (λ st, mkAwState (st_user st) (st_activeMessageId st) (Some t)).

(** [getActiveUsers()] at time [t]. *)
Definition getActiveUsers (a : Awareness) (t : Z) : list UserPresence :=
  omap (λ p : N * AwarenessState,
          match st_user (snd p) with
          | Some user => if (t - lastActivity user <? 60000)%Z then Some user else None
          | None => None
          end)
       (states a).

(** Messages sent one after the other to the same conversation, whatever
    each call answers. *)
Definition sendAll (w : World) (topicId : string) (ms : list Message) : World :=
  foldl (λ w m, fst (sendMessage w topicId m)) w ms.

(** ** Well-formed registries *)

(** Every registered document is an allocated object, and no two rooms share
    one. *)
Definition registryWf (w : World) : Prop :=
  (∀ room d, ydocs (sync w) !! room = Some d → d < next_ref w)
  ∧ (∀ room1 room2 d, ydocs (sync w) !! room1 = Some d →
                      ydocs (sync w) !! room2 = Some d → room1 = room2).

(** The messages a queued update brings to the document [r]. *)
Definition deliveredTo (w : World) (r : DocRef) (u : QueuedUpdate) : list SerializedMessage :=
  match q_type u with
  | TMessage =>
      if decide (getSyncDocument w "conversation" (q_topicId u) = Some r)
      then [q_data u] else []
  | _ => []
  end.

(** The messages of the document [r], none when it is not live. *)
Definition messagesOf (w : World) (r : DocRef) : list SerializedMessage :=
  match heap w !! r with
  | Some d => messages d
  | None => []
  end.

(** Every queued mutation addresses a conversation whose document is
    registered and live. *)
Definition allLive (w : World) (q : list QueuedUpdate) : Prop :=
  ∀ u, u ∈ q →
    ∃ d, getSyncDocument w "conversation" (q_topicId u) = Some d ∧ is_Some (heap w !! d).

(** A box whose key agreement is symmetric: the public key is the secret key
    and the shared key their bytewise exclusive or, cut or padded to 32. *)
Definition pairBox : NaclBox :=
  {| nonceLength := 24;
     sharedKeyLength := 32;
     box_before := λ pk sk, take 32 (zip_with Z.lxor pk sk ++ replicate 32 0%Z);
     box_after := λ m n k, k ++ n ++ m ++ m;
     box_open_after := plainBoxOpen |}.

(** ** Properties the theorems speak of *)

(** In the trace [tr], whenever a provider is created over the document
    [ydoc] of conversation [topicId], the hydration of that conversation has
    already completed. *)
Definition hydratedBeforeExposed (tr : list Event) (topicId : string) (ydoc : DocRef)
    : Prop :=
  ∀ i room,
    tr !! i = Some (ProviderCreated room ydoc) →
    ∃ j, j < i ∧ tr !! j = Some (Log info "Conversation sync initialized" topicId).

(** The effects of a drain in which every application succeeds. *)
Fixpoint drainEffects (q : list QueuedUpdate) : list Effect :=
  match q with
  | [] => []
  | u :: rest => Applied u :: Persisted rest :: drainEffects rest
  end.

(** How often the mutation [id] reached a document. *)
Definition countApplied (id : string) (effs : list Effect) : nat :=
  length (filter (λ u, q_id u = id) (appliedOf effs)).

(** Whatever the point of the crash, every queued mutation is applied exactly
    once over the crashed drain and the drain after recovery. *)
Definition crashSafe (s : QState) (w2 : World) : Prop :=
  ∀ k u, u ∈ queue s → countApplied (q_id u) (crashRecover s k w2) = 1.

(** Every queued mutation addresses a conversation that has a document. *)
Definition allInitialized (w : World) (q : list QueuedUpdate) : Prop :=
  ∀ u, u ∈ q → is_Some (getSyncDocument w "conversation" (q_topicId u)).

(** Opening the same resource twice yields the same document object and
    leaves the documents as they are. *)
Definition openIdempotent (w : World) (rt : ResourceType) (id : string) : Prop :=
  let first := createSyncDocument w rt id in
  let second := createSyncDocument (fst first) rt id in
  fst (snd second) = fst (snd first) ∧ heap (fst second) = heap (fst first).

(** *** Sample data *)

Definition sampleMessage : Message :=
  {| msg_id := "m1"; msg_content := "hi"; msg_role := "user";
     msg_createdAt := 5; msg_modelId := None; msg_status := None |}.

(** A process with one stored conversation, "t1", holding one message. *)
Definition sampleWorld : World :=
  initialWorld None (Some {["t1" := [sampleMessage]]}) 100.

(** "t1" is being synchronised. *)
Definition syncedWorld : World := fst (startConversationSync sampleWorld "t1").

(** ... and two peers have connected. *)
Definition peeredWorld : World :=
  onPeers syncedWorld "the-boss-conversation-t1" ["peer-a"; "peer-b"].

(** One message queued while offline, the log persisted by [enqueue]. *)
Definition sampleQueue : QState :=
  enqueue (newQueue syncedWorld ∅) TMessage "t1" (serializeMessage sampleMessage) "0.5".

(** A second message, and two messages queued while offline. *)
Definition sampleReply : Message :=
  {| msg_id := "m2"; msg_content := "yo"; msg_role := "assistant";
     msg_createdAt := 6; msg_modelId := None; msg_status := None |}.

Definition sampleQueueOfTwo : QState :=
  enqueue sampleQueue TMessage "t1" (serializeMessage sampleReply) "0.7".

(** A mutation that has failed twice, for a conversation without document. *)
Definition staleUpdate : QueuedUpdate :=
  {| q_id := "q-7-0.1"; q_type := TMessage; q_topicId := "t9";
     q_data := serializeMessage sampleMessage; q_timestamp := 7; q_retryCount := 2 |}.

Definition staleQueue : QState :=
  {| qworld := syncedWorld; queue := [staleUpdate]; isProcessing := false;
     asyncStorage := {[QUEUE_KEY := [staleUpdate]]} |}.

Definition sampleService : EncryptionService :=
  {| publicKey := replicate 32 1%Z; secretKey := replicate 32 2%Z;
     sharedKey := Some (replicate 32 7%Z) |}.

Definition sampleNonce : bytes := replicate 24 9%Z.

Definition sampleAppend : Update :=
  {| upd_timestamp := 10; upd_peerId := 1; upd_kind := KAppend; upd_entry := "m1";
     upd_payload := "hi"; upd_author := "user"; upd_createdAt := 10 |}.

Definition sampleEdit : Update :=
  {| upd_timestamp := 12; upd_peerId := 2; upd_kind := KEdit; upd_entry := "m1";
     upd_payload := "hi there"; upd_author := "user"; upd_createdAt := 10 |}.

(** Another Update for "m1" with the stamp of [sampleAppend]. *)
Definition sampleRival : Update :=
  {| upd_timestamp := 10; upd_peerId := 1; upd_kind := KAppend; upd_entry := "m1";
     upd_payload := "hello"; upd_author := "user"; upd_createdAt := 10 |}.

Definition sampleOther : Update :=
  {| upd_timestamp := 11; upd_peerId := 2; upd_kind := KAppend; upd_entry := "m2";
     upd_payload := "yo"; upd_author := "user"; upd_createdAt := 11 |}.

(** * Theorems *)

(** ** SyncService and ConversationSyncService *)

(** C10. [SyncService.getInstance] is a singleton: the first call that
    supplies a configuration builds the instance from it, and once an
    instance exists every call returns that instance and leaves the static
    field as it is, whatever configuration the call passes. *)
Theorem getInstance_singleton :
  (∀ c, getInstance None (Some c) = (Some (newSyncService c), Some (newSyncService c)))
  ∧ (∀ inst c', getInstance (Some inst) c' = (Some inst, Some inst))
  ∧ (∀ c c', let first := getInstance None (Some c) in
             getInstance (fst first) c' = first
             ∧ config <$> snd (getInstance (fst first) c') = Some c).
Proof.
  split; [|split].
  - intros c. reflexivity.
  - intros inst [c'|]; reflexivity.
  - intros c [c'|]; split; reflexivity.
Qed.

(** C9. When no sync document exists for a conversation, [sendMessage]
    throws 'Conversation not initialized for sync' and the world (every
    document, the datastore, the trace) is exactly as before. *)
Theorem sendMessage_not_initialized (w : World) (topicId : string) (message : Message) :
  getSyncDocument w "conversation" topicId = None →
  sendMessage w topicId message = (w, Throw "Conversation not initialized for sync").
Proof.
  intros Hnone. unfold sendMessage. rewrite Hnone. reflexivity.
Qed.

Lemma sendMessage_not_initialized_witness :
  getSyncDocument sampleWorld "conversation" "t1" = None
  ∧ sendMessage sampleWorld "t1" sampleMessage
    = (sampleWorld, Throw "Conversation not initialized for sync").
Proof.
  split.
  - vm_compute. reflexivity.
  - apply (sendMessage_not_initialized sampleWorld "t1" sampleMessage).
    vm_compute. reflexivity.
Defined.

(** [createSyncDocument] never looks into the registry: the document it
    returns is the next allocation. *)
Lemma createSyncDocument_ref (w : World) (rt : ResourceType) (id : string) :
  fst (snd (createSyncDocument w rt id)) = next_ref w
  ∧ next_ref (fst (createSyncDocument w rt id)) = S (next_ref w)
  ∧ config (sync (fst (createSyncDocument w rt id))) = config (sync w).
Proof. repeat split. Qed.

Lemma createSyncDocument_registers (w : World) (rt : ResourceType) (id : string) :
  getSyncDocument (fst (createSyncDocument w rt id)) (resourceTypeName rt) id
  = Some (next_ref w)
  ∧ heap (fst (createSyncDocument w rt id)) !! next_ref w = Some newDoc.
Proof.
  split.
  - unfold getSyncDocument, createSyncDocument. simpl. apply lookup_insert_eq.
  - unfold createSyncDocument. simpl. apply lookup_insert_eq.
Qed.

(** C7, as stated, fails: a second [createSyncDocument] for the conversation
    "t1" returns another object and adds a document to the heap. *)
Lemma open_twice_counterexample : ¬ openIdempotent sampleWorld conversation "t1".
Proof.
  unfold openIdempotent. intros [Href _].
  vm_compute in Href. discriminate Href.
Qed.

(** C7, amended. [getSyncDocument] returns the document registered for the
    resource, the one the last [createSyncDocument] made; [createSyncDocument]
    itself always allocates a new empty document, different from the one
    registered before, and registers it in its place; starting the sync of a
    conversation that is already active only logs a warning. *)
Theorem open_returns_registered_create_replaces (w : World) (rt : ResourceType) (id : string) :
  let first := createSyncDocument w rt id in
  let second := createSyncDocument (fst first) rt id in
  getSyncDocument (fst first) (resourceTypeName rt) id = Some (fst (snd first))
  ∧ fst (snd second) ≠ fst (snd first)
  ∧ heap (fst second) !! fst (snd second) = Some newDoc
  ∧ getSyncDocument (fst second) (resourceTypeName rt) id = Some (fst (snd second))
  ∧ startConversationSync (set_active (union {[id]}) w) id
    = (emit (Log warn "Conversation already syncing" id) (set_active (union {[id]}) w), Ok tt).
Proof.
  intros first second.
  destruct (createSyncDocument_ref w rt id) as (Hr1 & Hn1 & _).
  destruct (createSyncDocument_ref (fst first) rt id) as (Hr2 & _ & _).
  destruct (createSyncDocument_registers w rt id) as (Hg1 & _).
  destruct (createSyncDocument_registers (fst first) rt id) as (Hg2 & Hh2).
  subst first second. rewrite Hr1, Hr2.
  split; [exact Hg1|].
  split; [rewrite Hn1; lia|].
  split; [exact Hh2|].
  split; [exact Hg2|].
  unfold startConversationSync.
  destruct (decide (id ∈ activeConversations (set_active (union {[id]}) w))) as [|Hn].
  - reflexivity.
  - exfalso. apply Hn. simpl. set_solver.
Qed.

(** [getSyncStatus] reports no peers, whatever the providers hold. *)
Lemma getSyncStatus_peerCount_zero (w : World) (topicId : string) :
  peerCount (getSyncStatus w topicId) = 0.
Proof. unfold getSyncStatus. destruct (getSyncDocument _ _ _); reflexivity. Qed.

(** C8. With two peers connected to the provider of the active conversation
    "t1", [getSyncStatus] answers [isActive] true and [peerCount] 0. *)
Theorem getSyncStatus_ignores_connected_peers :
  connectedPeers peeredWorld "t1" = 2
  ∧ getSyncStatus peeredWorld "t1"
    = {| isActive := true; peerCount := 0; lastSyncedAt := Some (MNum 100) |}.
Proof. split; vm_compute; reflexivity. Qed.


(** Hydration on a free adapter with the datastore available. *)
Lemma initializeConversationSync_ok (w : World) (topicId : string) (ydoc : DocRef)
    (db : gmap string (list Message)) :
  syncing w = false →
  messageDatabase w = Some db →
  let msgs := default [] (db !! topicId) in
  let w' := fst (initializeConversationSync w topicId ydoc) in
  snd (initializeConversationSync w topicId ydoc) = Ok tt
  ∧ trace w' = (trace w ++
      [Log info "Initializing conversation sync" topicId;
       Transact ydoc (map serializeMessage msgs);
       Observe ("yjs-to-db-" +:+ topicId) ydoc;
       Log info "Database to Yjs sync configured" topicId;
       Log info "Conversation sync initialized" topicId])%list
  ∧ heap w' = alter (hydrate topicId (now w) msgs) ydoc (heap w)
  ∧ activeConversations w' = activeConversations w
  ∧ sync w' = sync w.
Proof.
  intros Hs Hdb msgs w'. subst w'.
  unfold initializeConversationSync. rewrite Hs.
  unfold getMessagesByTopicId. simpl. rewrite Hdb. simpl.
  repeat split. rewrite <- !app_assoc. reflexivity.
Qed.



(** ** OfflineSyncQueue *)

Lemma applyUpdate_initialized (w : World) (u : QueuedUpdate) :
  is_Some (getSyncDocument w "conversation" (q_topicId u)) →
  ∃ w', applyUpdate w u = (w', Ok tt) ∧ sync w' = sync w.
Proof.
  intros [ydoc Hdoc]. unfold applyUpdate. rewrite Hdoc.
  eexists. split; reflexivity.
Qed.

Lemma allInitialized_sync (w w' : World) (q : list QueuedUpdate) :
  sync w' = sync w → allInitialized w q → allInitialized w' q.
Proof.
  intros Hs Hall u Hu. unfold getSyncDocument. rewrite Hs. apply (Hall u Hu).
Qed.

(** With every document in place the loop applies and persists head after
    head and leaves the queue empty. *)
Lemma drainLoop_all_applied (q : list QueuedUpdate) :
  ∀ w st, allInitialized w q →
    ∃ w' st', drainLoop w st q = (w', st', [], drainEffects q).
Proof.
  induction q as [|u rest IH]; intros w st Hall.
  - exists w, st. reflexivity.
  - destruct (applyUpdate_initialized w u) as (w1 & Happ & Hsync).
    { apply Hall. left. }
    assert (allInitialized w1 rest) as Hrest.
    { apply (allInitialized_sync w); [exact Hsync|].
      intros v Hv. apply Hall. right. exact Hv. }
    destruct (IH w1 (persistQueue rest st) Hrest) as (w2 & st2 & Hloop).
    exists w2, st2. simpl. rewrite Happ, Hloop. reflexivity.
Qed.

Lemma processQueue_all_applied (s : QState) :
  isProcessing s = false →
  allInitialized (qworld s) (queue s) →
  snd (processQueue s) = drainEffects (queue s)
  ∧ queue (fst (processQueue s)) = [].
Proof.
  intros Hp Hall. unfold processQueue. rewrite Hp. simpl.
  destruct (queue s) as [|u rest] eqn:Hq.
  - simpl. rewrite Hq. split; reflexivity.
  - rewrite bool_decide_eq_false_2 by (simpl; lia).
    destruct (drainLoop_all_applied (u :: rest) (qworld s) (asyncStorage s) Hall)
      as (w' & st' & Hloop).
    rewrite Hloop. split; reflexivity.
Qed.

(** A crash after [k] effects of such a drain: [div2 (S k)] mutations have
    been applied and the storage holds the log without its first [div2 k]
    entries. *)
Lemma appliedOf_take_drainEffects (q : list QueuedUpdate) :
  ∀ k, appliedOf (take k (drainEffects q)) = take (Nat.div2 (S k)) q.
Proof.
  induction q as [|u rest IH]; intros k.
  - simpl. rewrite !take_nil. reflexivity.
  - destruct k as [|[|k]]; [reflexivity|reflexivity|].
    change (appliedOf (take (S (S k)) (drainEffects (u :: rest))))
      with (u :: appliedOf (take k (drainEffects rest))).
    rewrite IH. reflexivity.
Qed.

Lemma durableAfter_take_drainEffects (q : list QueuedUpdate) :
  ∀ k st, st !! QUEUE_KEY = Some q →
    durableAfter st (take k (drainEffects q)) !! QUEUE_KEY = Some (drop (Nat.div2 k) q).
Proof.
  induction q as [|u rest IH]; intros k st Hst.
  - simpl. rewrite take_nil, drop_nil. exact Hst.
  - destruct k as [|[|k]]; [exact Hst|exact Hst|].
    change (durableAfter st (take (S (S k)) (drainEffects (u :: rest))))
      with (durableAfter (persistQueue rest st) (take k (drainEffects rest))).
    rewrite IH; [reflexivity|].
    unfold persistQueue. apply lookup_insert_eq.
Qed.

Lemma appliedOf_app (e1 e2 : list Effect) :
  appliedOf (e1 ++ e2) = (appliedOf e1 ++ appliedOf e2)%list.
Proof. unfold appliedOf. apply flat_map_app. Qed.

Lemma appliedOf_drainEffects (q : list QueuedUpdate) : appliedOf (drainEffects q) = q.
Proof. induction q as [|u rest IH]; [reflexivity|]. simpl. rewrite IH. reflexivity. Qed.

Lemma drainLoop_cons (w : World) (st : gmap string (list QueuedUpdate))
    (update : QueuedUpdate) (rest : list QueuedUpdate) :
  drainLoop w st (update :: rest)
  = match applyUpdate w update with
    | (w, Ok _) =>
        let '(w, st, q', effs) := drainLoop w (persistQueue rest st) rest in
        (w, st, q', Applied update :: Persisted rest :: effs)
    | (w, Throw _) =>
        if 3 <=? q_retryCount (bumpRetry update) then
          let '(w, st, q', effs) :=
            drainLoop (emit (Log error "Update failed after 3 retries, discarding"
                                 (q_id (bumpRetry update))) w) st rest in
          (w, st, q', Discarded (bumpRetry update) :: effs)
        else (w, st, bumpRetry update :: rest, [])
    end.
Proof. reflexivity. Qed.

Lemma drainLoop_never_loses (q : list QueuedUpdate) :
  ∀ w st k u,
    u ∈ q → (∀ v, v ∈ q → v ∈ storedLog st) →
    u ∈ appliedOf (take k (snd (drainLoop w st q)))
    ∨ Discarded (bumpRetry u) ∈ take k (snd (drainLoop w st q))
    ∨ u ∈ storedLog (durableAfter st (take k (snd (drainLoop w st q)))).
Proof.
  induction q as [|u0 rest IH]; intros w st k u Hu Hst.
  - apply elem_of_nil in Hu. contradiction.
  - assert (∀ v, v ∈ rest → v ∈ storedLog (persistQueue rest st)) as Hrest.
    { intros v Hv. unfold storedLog, persistQueue. rewrite lookup_insert_eq. exact Hv. }
    rewrite drainLoop_cons. destruct (applyUpdate w u0) as [w1 [[]|e]] eqn:Happ.
    + (* applied, then the shortened log stored *)
      specialize (IH w1 (persistQueue rest st)).
      destruct (drainLoop w1 (persistQueue rest st) rest) as [[[w' st'] q'] effs].
      simpl in IH |- *.
      destruct k as [|[|k]].
      * right. right. apply Hst. exact Hu.
      * right. right. apply Hst. exact Hu.
      * apply elem_of_cons in Hu as [->|Hu].
        -- left. simpl. left.
        -- destruct (IH k u Hu Hrest) as [Ha|[Hd|Hs]].
           ++ left. simpl. right. exact Ha.
           ++ right. left. simpl. right. right. exact Hd.
           ++ right. right. exact Hs.
    + destruct (3 <=? q_retryCount (bumpRetry u0)) eqn:Hceil.
      * (* discarded *)
        set (w2 := emit _ w1).
        specialize (IH w2 st).
        cbv zeta.
        destruct (drainLoop w2 st rest) as [[[w' st'] q'] effs].
        simpl in IH |- *.
        destruct k as [|k].
        -- right. right. apply Hst. exact Hu.
        -- apply elem_of_cons in Hu as [->|Hu].
           ++ right. left. simpl. left.
           ++ destruct (IH k u Hu) as [Ha|[Hd|Hs]].
              ** intros v Hv. apply Hst. right. exact Hv.
              ** left. exact Ha.
              ** right. left. simpl. right. exact Hd.
              ** right. right. exact Hs.
      * (* kept for the next attempt *)
        cbn [snd]. rewrite take_nil. right. right. apply Hst. exact Hu.
Qed.

Lemma processQueue_effects (s : QState) :
  isProcessing s = false →
  snd (processQueue s) = snd (drainLoop (qworld s) (asyncStorage s) (queue s)).
Proof.
  intros Hp. unfold processQueue. rewrite Hp. simpl.
  destruct (queue s) as [|u rest].
  - reflexivity.
  - rewrite bool_decide_eq_false_2 by (simpl; lia).
    destruct (drainLoop _ _ _) as [[[w' st'] q'] effs]. reflexivity.
Qed.


(** The discard at the retry ceiling shortens the queue in memory only: the
    stored log still holds the discarded mutation, with the retry count it
    was stored with. *)
Lemma discard_leaves_stored_log :
  snd (processQueue staleQueue) = [Discarded (bumpRetry staleUpdate)]
  ∧ queue (fst (processQueue staleQueue)) = []
  ∧ asyncStorage (fst (processQueue staleQueue)) !! QUEUE_KEY = Some [staleUpdate]
  ∧ queue (initialize (newQueue syncedWorld (asyncStorage (fst (processQueue staleQueue)))))
    = [staleUpdate].
Proof. repeat split. Qed.

Lemma applyUpdate_cases (w : World) (u : QueuedUpdate) :
  (is_Some (getSyncDocument w "conversation" (q_topicId u))
   ∧ snd (applyUpdate w u) = Ok tt ∧ sync (fst (applyUpdate w u)) = sync w)
  ∨ (getSyncDocument w "conversation" (q_topicId u) = None
     ∧ applyUpdate w u = (w, Throw "Conversation not initialized for sync")).
Proof.
  unfold applyUpdate.
  destruct (getSyncDocument w "conversation" (q_topicId u)) as [d|].
  - left. split; [eauto|]. split; reflexivity.
  - right. split; reflexivity.
Qed.

Lemma drainShape_sync (w w' : World) (q : list QueuedUpdate) (effs : list Effect)
    (q' : list QueuedUpdate) :
  sync w' = sync w → drainShape w' q effs q' → drainShape w q effs q'.
Proof.
  intros Hs Hshape.
  assert (∀ t, getSyncDocument w' "conversation" t = getSyncDocument w "conversation" t)
    as Hdoc by (intros t; unfold getSyncDocument; rewrite Hs; reflexivity).
  induction Hshape as [|u rest effs q' Hd _ IH|u rest effs q' Hd Hc _ IH|u rest Hd Hc].
  - apply shape_done.
  - apply shape_applied; [rewrite <- Hdoc; exact Hd|exact IH].
  - apply shape_discarded; [rewrite <- Hdoc; exact Hd|exact Hc|exact IH].
  - apply shape_blocked; [rewrite <- Hdoc; exact Hd|exact Hc].
Qed.

(** The loop takes the course described by [drainShape], and the storage it
    leaves is the storage written by its effects. *)
Lemma drainLoop_shape (q : list QueuedUpdate) :
  ∀ w st,
    drainShape w q (snd (drainLoop w st q)) (snd (fst (drainLoop w st q)))
    ∧ snd (fst (fst (drainLoop w st q))) = durableAfter st (snd (drainLoop w st q)).
Proof.
  induction q as [|u rest IH]; intros w st.
  - split; [apply shape_done|reflexivity].
  - rewrite drainLoop_cons.
    destruct (applyUpdate_cases w u) as [(Hd & Hok & Hs)|(Hd & Happ)].
    + destruct (applyUpdate w u) as [w1 r]. simpl in Hok, Hs. subst r.
      destruct (IH w1 (persistQueue rest st)) as (Hshape & Hst).
      destruct (drainLoop w1 (persistQueue rest st) rest) as [[[w' st'] q'] effs].
      simpl in Hshape, Hst |- *. split; [|exact Hst].
      apply shape_applied; [exact Hd|]. exact (drainShape_sync w w1 _ _ _ Hs Hshape).
    + rewrite Happ.
      destruct (3 <=? q_retryCount (bumpRetry u)) eqn:Hceil.
      * set (w1 := emit _ w).
        destruct (IH w1 st) as (Hshape & Hst).
        destruct (drainLoop w1 st rest) as [[[w' st'] q'] effs].
        simpl in Hshape, Hst |- *. split; [|exact Hst].
        apply shape_discarded; [exact Hd| |].
        -- apply Nat.leb_le in Hceil. exact Hceil.
        -- exact (drainShape_sync w w1 _ _ _ eq_refl Hshape).
      * simpl. split; [|reflexivity].
        apply shape_blocked; [exact Hd|].
        apply Nat.leb_gt in Hceil. exact Hceil.
Qed.

Lemma processQueue_shape (s : QState) :
  isProcessing s = false →
  drainShape (qworld s) (queue s) (snd (processQueue s)) (queue (fst (processQueue s)))
  ∧ asyncStorage (fst (processQueue s))
    = durableAfter (asyncStorage s) (snd (processQueue s)).
Proof.
  intros Hp. unfold processQueue. rewrite Hp. simpl.
  destruct (queue s) as [|u rest] eqn:Hq.
  - simpl. rewrite Hq. split; [apply shape_done|reflexivity].
  - rewrite bool_decide_eq_false_2 by (simpl; lia).
    destruct (drainLoop_shape (u :: rest) (qworld s) (asyncStorage s)) as (Hshape & Hst).
    destruct (drainLoop (qworld s) (asyncStorage s) (u :: rest)) as [[[w' st'] q'] effs].
    split; [exact Hshape|exact Hst].
Qed.

(** At every suspension of a drain the flag is set. *)
Lemma drainSuspensions_flag (q : list QueuedUpdate) :
  ∀ w st c, c ∈ drainSuspensions w st q → isProcessing c = true.
Proof.
  induction q as [|u rest IH]; intros w st c Hc.
  - apply elem_of_nil in Hc. contradiction.
  - simpl in Hc. destruct (applyUpdate w u) as [w1 [[]|e]].
    + apply elem_of_cons in Hc as [->|Hc]; [reflexivity|].
      apply elem_of_cons in Hc as [->|Hc]; [reflexivity|].
      exact (IH _ _ _ Hc).
    + apply elem_of_cons in Hc as [->|Hc]; [reflexivity|].
      destruct (q_retryCount u) as [|[|n]].
      * apply elem_of_nil in Hc. contradiction.
      * apply elem_of_nil in Hc. contradiction.
      * exact (IH _ _ _ Hc).
Qed.



(** ** EncryptionService *)

Lemma flipBit_length (frame : bytes) (i j : nat) :
  length (flipBit frame i j) = length frame.
Proof.
  unfold flipBit. destruct (frame !! i); [apply length_insert|reflexivity].
Qed.

(** A flipped bit lies in the nonce or in the sealed text after it. *)
Lemma flipBit_app (n c : bytes) (i j : nat) :
  flipBit (n ++ c) i j
  = if decide (i < length n) then (flipBit n i j ++ c)%list
    else (n ++ flipBit c (i - length n) j)%list.
Proof.
  unfold flipBit. destruct (decide (i < length n)) as [Hlt|Hge].
  - rewrite lookup_app_l by exact Hlt.
    destruct (lookup_lt_is_Some_2 n i Hlt) as [b Hb]. rewrite Hb.
    apply insert_app_l. exact Hlt.
  - rewrite lookup_app_r by lia.
    destruct (c !! (i - length n)) as [b|] eqn:Hb; [|reflexivity].
    apply insert_app_r_alt. lia.
Qed.

Section EncryptedTransport.
Context `{NaclBox}.

(** What tweetnacl promises of the box: a sealed text opens under the
    nonce and key it was sealed with, *)
Hypothesis open_after_box : ∀ m n k,
  length n = nonceLength → length k = sharedKeyLength →
  box_open_after (box_after m n k) n k = Some m.

(** and authentication fails when a bit of the sealed text or of the nonce
    is inverted, or when the key is another one. *)
Hypothesis open_tampered_text : ∀ m n k i j,
  length n = nonceLength → length k = sharedKeyLength →
  i < length (box_after m n k) → j < 8 →
  box_open_after (flipBit (box_after m n k) i j) n k = None.

Hypothesis open_tampered_nonce : ∀ m n k i j,
  length n = nonceLength → length k = sharedKeyLength →
  i < length n → j < 8 →
  box_open_after (box_after m n k) (flipBit n i j) k = None.

Hypothesis open_wrong_key : ∀ m n k k',
  length n = nonceLength → length k = sharedKeyLength →
  length k' = sharedKeyLength → k' ≠ k →
  box_open_after (box_after m n k) n k' = None.

(** C3. The frame made by [encrypt] is the nonce followed by the sealed
    text, and [decrypt] under the same shared key returns exactly the data
    that was encrypted. *)
Theorem decrypt_encrypt (svc : EncryptionService) (key nonce data : bytes) :
  sharedKey svc = Some key →
  length key = sharedKeyLength →
  length nonce = nonceLength →
  encrypt svc nonce data = Ok (nonce ++ box_after data nonce key)%list
  ∧ ∀ frame, encrypt svc nonce data = Ok frame → decrypt svc frame = Ok data.
Proof.
  intros Hkey Hklen Hnlen.
  assert (encrypt svc nonce data = Ok (nonce ++ box_after data nonce key)%list) as Henc.
  { unfold encrypt. rewrite Hkey. reflexivity. }
  split; [exact Henc|].
  intros frame Hframe. rewrite Henc in Hframe. injection Hframe as <-.
  unfold decrypt, sliceTo, sliceFrom. rewrite Hkey, <- Hnlen.
  rewrite take_app_length, drop_app_length.
  rewrite open_after_box by assumption. reflexivity.
Qed.


End EncryptedTransport.

(** *** The comparison box meets these promises *)

Lemma flipBit_changes (frame : bytes) (i j : nat) :
  i < length frame → flipBit frame i j ≠ frame.
Proof.
  intros Hi Heq. unfold flipBit in Heq.
  destruct (lookup_lt_is_Some_2 frame i Hi) as [b Hb]. rewrite Hb in Heq.
  assert (<[i := Z.lxor b (2 ^ Z.of_nat j)]> frame !! i = Some (Z.lxor b (2 ^ Z.of_nat j)))
    as Hnew by (apply list_lookup_insert_eq; exact Hi).
  rewrite Heq, Hb in Hnew. injection Hnew as Hx.
  assert (Z.lxor b (Z.lxor b (2 ^ Z.of_nat j)) = 0%Z) as Hz.
  { rewrite <- Hx. apply Z.lxor_nilpotent. }
  rewrite <- Z.lxor_assoc, Z.lxor_nilpotent, Z.lxor_0_l in Hz.
  assert (0 < 2 ^ Z.of_nat j)%Z by (apply Z.pow_pos_nonneg; lia). lia.
Qed.

Lemma plainBoxOpen_sealed (c n k m : bytes) :
  plainBoxOpen c n k = Some m → c = k ++ n ++ m ++ m.
Proof.
  unfold plainBoxOpen. intros Hopen.
  destruct (decide _) as [Heq|]; [|discriminate Hopen].
  injection Hopen as <-. exact Heq.
Qed.

Lemma plainBoxOpen_box (m n k : bytes) :
  plainBoxOpen (k ++ n ++ m ++ m) n k = Some m.
Proof.
  unfold plainBoxOpen.
  rewrite <- drop_drop, !drop_app_length.
  replace (length (m ++ m) / 2) with (length m).
  - rewrite take_app_length. rewrite decide_True by reflexivity. reflexivity.
  - rewrite length_app. replace (length m + length m) with (length m * 2) by lia.
    symmetry. apply Nat.div_mul. lia.
Qed.

Lemma plainBoxOpen_tampered_text (m n k : bytes) (i j : nat) :
  i < length (k ++ n ++ m ++ m) →
  plainBoxOpen (flipBit (k ++ n ++ m ++ m) i j) n k = None.
Proof.
  intros Hi.
  destruct (plainBoxOpen (flipBit (k ++ n ++ m ++ m) i j) n k) as [m'|] eqn:Hopen;
    [exfalso|reflexivity].
  apply plainBoxOpen_sealed in Hopen.
  apply (flipBit_changes (k ++ n ++ m ++ m) i j Hi).
  rewrite Hopen. do 2 f_equal.
  assert (length m' = length m) as Hlen.
  { pose proof (f_equal length Hopen) as Hl.
    rewrite flipBit_length, !length_app in Hl. lia. }
  assert (m' = m) as ->; [|reflexivity].
  unfold flipBit in Hopen.
  destruct (lookup_lt_is_Some_2 _ i Hi) as [b Hb]. rewrite Hb in Hopen.
  set (v := Z.lxor b (2 ^ Z.of_nat j)) in *.
  destruct (decide (i < length (k ++ n ++ m))) as [Hlt|Hge].
  - (* the second copy is untouched *)
    pose proof (f_equal (drop (length (k ++ n ++ m))) Hopen) as Hd.
    rewrite drop_insert_lt in Hd by exact Hlt.
    replace (k ++ n ++ m ++ m) with ((k ++ n ++ m) ++ m) in Hd
      by (rewrite <- !app_assoc; reflexivity).
    rewrite drop_app_length in Hd.
    replace (length (k ++ n ++ m)) with (length (k ++ n ++ m'))  in Hd
      by (rewrite !length_app; lia).
    replace (k ++ n ++ m' ++ m') with ((k ++ n ++ m') ++ m') in Hd
      by (rewrite <- !app_assoc; reflexivity).
    rewrite drop_app_length in Hd. symmetry. exact Hd.
  - (* the first copy is untouched *)
    pose proof (f_equal (take (length (k ++ n ++ m))) Hopen) as Ht.
    rewrite take_insert_ge in Ht by lia.
    replace (k ++ n ++ m ++ m) with ((k ++ n ++ m) ++ m) in Ht
      by (rewrite <- !app_assoc; reflexivity).
    rewrite take_app_length in Ht.
    replace (length (k ++ n ++ m)) with (length (k ++ n ++ m'))  in Ht
      by (rewrite !length_app; lia).
    replace (k ++ n ++ m' ++ m') with ((k ++ n ++ m') ++ m') in Ht
      by (rewrite <- !app_assoc; reflexivity).
    rewrite take_app_length in Ht.
    apply app_inv_head in Ht. apply app_inv_head in Ht. symmetry. exact Ht.
Qed.

Lemma plainBoxOpen_tampered_nonce (m n k : bytes) (i j : nat) :
  i < length n →
  plainBoxOpen (k ++ n ++ m ++ m) (flipBit n i j) k = None.
Proof.
  intros Hi.
  destruct (plainBoxOpen (k ++ n ++ m ++ m) (flipBit n i j) k) as [m'|] eqn:Hopen;
    [exfalso|reflexivity].
  apply plainBoxOpen_sealed in Hopen.
  apply app_inv_head in Hopen.
  apply app_inj_1 in Hopen as [Hn _]; [|rewrite flipBit_length; reflexivity].
  apply (flipBit_changes n i j Hi). symmetry. exact Hn.
Qed.

Lemma plainBoxOpen_wrong_key (m n k k' : bytes) :
  length k' = length k → k' ≠ k →
  plainBoxOpen (k ++ n ++ m ++ m) n k' = None.
Proof.
  intros Hlen Hne.
  destruct (plainBoxOpen (k ++ n ++ m ++ m) n k') as [m'|] eqn:Hopen;
    [exfalso|reflexivity].
  apply plainBoxOpen_sealed in Hopen.
  apply app_inj_1 in Hopen as [Hk _]; [|symmetry; exact Hlen].
  apply Hne. symmetry. exact Hk.
Qed.

Lemma decrypt_encrypt_witness :
  sharedKey sampleService = Some (replicate 32 7%Z)
  ∧ length sampleNonce = 24
  ∧ decrypt (H := plainBox) sampleService
      (sampleNonce ++ box_after (NaclBox := plainBox) [1; 2; 3]%Z sampleNonce (replicate 32 7%Z))
    = Ok [1; 2; 3]%Z.
Proof.
  split; [reflexivity|]. split; [reflexivity|].
  refine (proj2 (@decrypt_encrypt plainBox _ sampleService (replicate 32 7%Z)
                   sampleNonce [1; 2; 3]%Z eq_refl eq_refl eq_refl) _ _).
  - intros m n k _ _. apply plainBoxOpen_box.
  - reflexivity.
Defined.


(** ** Document Store *)

(** C2. Merging an Update that the Document has already merged changes
    nothing: applying the same Update twice gives exactly the Document that
    applying it once gives. *)
Theorem mergeRemoteUpdate_idempotent (doc : Document) (u : Update) :
  mergeRemoteUpdate (mergeRemoteUpdate doc u) u = mergeRemoteUpdate doc u.
Proof.
  unfold mergeRemoteUpdate at 2 3.
  destruct (bool_decide (u ∈ history doc)) eqn:Hin.
  - unfold mergeRemoteUpdate. rewrite Hin. reflexivity.
  - unfold mergeRemoteUpdate. simpl.
    rewrite bool_decide_eq_true_2; [reflexivity|].
    apply elem_of_app. right. apply list_elem_of_singleton. reflexivity.
Qed.

Lemma elem_of_mergeRemoteUpdate (doc : Document) (u v : Update) :
  v ∈ history (mergeRemoteUpdate doc u) ↔ v ∈ history doc ∨ v = u.
Proof.
  unfold mergeRemoteUpdate. case_bool_decide as Hin; simpl.
  - split; [auto|]. intros [Hv| ->]; assumption.
  - rewrite elem_of_app, list_elem_of_singleton. reflexivity.
Qed.

Lemma elem_of_mergeAll (us : list Update) :
  ∀ doc v, v ∈ history (mergeAll doc us) ↔ v ∈ history doc ∨ v ∈ us.
Proof.
  induction us as [|u us IH]; intros doc v; simpl.
  - rewrite elem_of_nil. tauto.
  - unfold mergeAll in IH. rewrite IH, elem_of_mergeRemoteUpdate, elem_of_cons. tauto.
Qed.

(** The tie-break is a strict order on stamps, total up to equal stamps. *)
Lemma stampLt_irrefl (u : Update) : stampLt u u = false.
Proof.
  unfold stampLt. rewrite !N.ltb_irrefl, andb_false_r. reflexivity.
Qed.

Lemma stampLt_trans (u v w : Update) :
  stampLt u v = true → stampLt v w = true → stampLt u w = true.
Proof.
  unfold stampLt. rewrite !orb_true_iff, !andb_true_iff, !N.ltb_lt, !N.eqb_eq. lia.
Qed.

Lemma stampLt_total (u v : Update) :
  stampLt u v = false → stampLt v u = false →
  upd_timestamp u = upd_timestamp v ∧ upd_peerId u = upd_peerId v.
Proof.
  unfold stampLt. rewrite !orb_false_iff, !andb_false_iff, !N.ltb_ge, !N.eqb_neq. lia.
Qed.

(** The ranking is a strict total order on Updates. *)
Lemma ranksBelow_irrefl (u : Update) : ranksBelow u u = false.
Proof.
  unfold ranksBelow. rewrite stampLt_irrefl, Pos.ltb_irrefl, andb_false_r. reflexivity.
Qed.

Lemma ranksBelow_trans (u v w : Update) :
  ranksBelow u v = true → ranksBelow v w = true → ranksBelow u w = true.
Proof.
  unfold ranksBelow, stampLt.
  rewrite !orb_true_iff, !andb_true_iff, !N.ltb_lt, !N.eqb_eq, !Pos.ltb_lt. lia.
Qed.

Lemma ranksBelow_total (u v : Update) :
  ranksBelow u v = false → ranksBelow v u = false → u = v.
Proof.
  unfold ranksBelow, stampLt.
  rewrite !orb_false_iff, !andb_false_iff, !N.ltb_ge, !N.eqb_neq, !Pos.ltb_ge.
  intros Huv Hvu. apply (encode_inj u v). unfold updateCode in *. lia.
Qed.

Lemma contend_lookup_ne (ws : gmap string Update) (x : Update) (i : string) :
  upd_entry x ≠ i → contend ws x !! i = ws !! i.
Proof.
  intros Hne. unfold contend.
  destruct (ws !! upd_entry x) as [v|]; [destruct (ranksBelow v x)|];
    rewrite ?lookup_insert_ne by exact Hne; reflexivity.
Qed.

Lemma contend_lookup_eq (ws : gmap string Update) (x : Update) :
  contend ws x !! upd_entry x
  = Some (match ws !! upd_entry x with
          | Some v => if ranksBelow v x then x else v
          | None => x
          end).
Proof.
  unfold contend.
  destruct (ws !! upd_entry x) as [v|] eqn:Hv; [destruct (ranksBelow v x)|];
    rewrite ?lookup_insert_eq; [reflexivity|exact Hv|reflexivity].
Qed.

(** No holder for an Entry: the history has no Update for it. *)
Lemma winners_none (log : list Update) (i : string) :
  foldl contend ∅ log !! i = None → ∀ u, u ∈ log → upd_entry u ≠ i.
Proof.
  induction log as [|x log IH] using rev_ind; intros Hnone u Hu.
  - apply elem_of_nil in Hu. contradiction.
  - rewrite foldl_snoc in Hnone.
    destruct (decide (upd_entry x = i)) as [<-|Hxi].
    + rewrite contend_lookup_eq in Hnone. discriminate Hnone.
    + rewrite contend_lookup_ne in Hnone by exact Hxi.
      apply elem_of_app in Hu as [Hu|Hu]; [apply IH; assumption|].
      apply list_elem_of_singleton in Hu as ->. exact Hxi.
Qed.

(** The holder of an Entry after a history has been folded: an Update of
    that history for that Entry over which none of the others wins. *)
Lemma winners_holder (log : list Update) (i : string) (w : Update) :
  foldl contend ∅ log !! i = Some w →
  w ∈ log ∧ upd_entry w = i
  ∧ ∀ u, u ∈ log → upd_entry u = i → ranksBelow w u = false.
Proof.
  revert w. induction log as [|x log IH] using rev_ind; intros w.
  - simpl. rewrite lookup_empty. discriminate.
  - rewrite foldl_snoc.
    assert (∀ u, u ∈ log ++ [x] ↔ u ∈ log ∨ u = x) as Hsnoc.
    { intros u. rewrite elem_of_app, list_elem_of_singleton. reflexivity. }
    destruct (decide (upd_entry x = i)) as [Hxi|Hxi].
    + subst i. rewrite contend_lookup_eq.
      destruct (foldl contend ∅ log !! upd_entry x) as [v|] eqn:Hv.
      * destruct (IH v eq_refl) as (Hvin & Hvi & Hvmax).
        destruct (ranksBelow v x) eqn:Hlt; intros [= <-].
        -- split; [apply Hsnoc; right; reflexivity|]. split; [reflexivity|].
           intros u Hu Hui. apply Hsnoc in Hu as [Hu| ->]; [|apply ranksBelow_irrefl].
           destruct (ranksBelow x u) eqn:Hxu; [|reflexivity].
           rewrite <- (Hvmax u Hu Hui).
           symmetry. apply (ranksBelow_trans v x u Hlt Hxu).
        -- split; [apply Hsnoc; left; exact Hvin|]. split; [exact Hvi|].
           intros u Hu Hui. apply Hsnoc in Hu as [Hu| ->]; [apply Hvmax; assumption|].
           exact Hlt.
      * intros [= <-].
        split; [apply Hsnoc; right; reflexivity|]. split; [reflexivity|].
        intros u Hu Hui. apply Hsnoc in Hu as [Hu| ->]; [|apply ranksBelow_irrefl].
        exfalso. apply (winners_none log (upd_entry x) Hv u Hu Hui).
    + rewrite contend_lookup_ne by exact Hxi. intros Hw.
      destruct (IH w Hw) as (Hwin & Hwi & Hwmax).
      split; [apply Hsnoc; left; exact Hwin|]. split; [exact Hwi|].
      intros u Hu Hui. apply Hsnoc in Hu as [Hu| ->]; [apply Hwmax; assumption|].
      contradiction.
Qed.

(** Histories with the same Updates have the same holders. *)
Lemma winners_same_updates (log1 log2 : list Update) :
  (∀ u, u ∈ log1 ↔ u ∈ log2) →
  foldl contend ∅ log1 = foldl contend ∅ log2.
Proof.
  intros Hsame. apply map_eq. intros i.
  destruct (foldl contend ∅ log1 !! i) as [w1|] eqn:H1;
    destruct (foldl contend ∅ log2 !! i) as [w2|] eqn:H2; [| | |reflexivity].
  - destruct (winners_holder log1 i w1 H1) as (Hin1 & Hi1 & Hmax1).
    destruct (winners_holder log2 i w2 H2) as (Hin2 & Hi2 & Hmax2).
    apply Hsame in Hin2.
    pose proof (Hmax1 w2 Hin2 Hi2) as H12.
    pose proof (Hmax2 w1 (proj1 (Hsame w1) Hin1) Hi1) as H21.
    f_equal. exact (ranksBelow_total w1 w2 H12 H21).
  - destruct (winners_holder log1 i w1 H1) as (Hin1 & Hi1 & _).
    exfalso. apply (winners_none log2 i H2 w1 (proj1 (Hsame w1) Hin1) Hi1).
  - destruct (winners_holder log2 i w2 H2) as (Hin2 & Hi2 & _).
    exfalso. apply (winners_none log1 i H1 w2 (proj2 (Hsame w2) Hin2) Hi2).
Qed.

(** C1. Two replicas of a Document that merge the same set of Updates, in
    any two orders and with any repetitions, hold the same winner for every
    Entry and show the same visible Entry sequence: the outcome of the merge
    depends on the set of Updates alone. *)
Theorem merge_converges (doc : Document) (us1 us2 : list Update) :
  (∀ u, u ∈ us1 ↔ u ∈ us2) →
  winning (mergeAll doc us1) = winning (mergeAll doc us2)
  ∧ visible (mergeAll doc us1) = visible (mergeAll doc us2).
Proof.
  intros Hsame.
  assert (winning (mergeAll doc us1) = winning (mergeAll doc us2)) as Hwin.
  { unfold winning. apply winners_same_updates.
    intros u. rewrite !elem_of_mergeAll, (Hsame u). reflexivity. }
  split; [exact Hwin|]. unfold visible. rewrite Hwin. reflexivity.
Qed.

Lemma merge_converges_witness :
  visible (mergeAll emptyDocument [sampleAppend; sampleOther; sampleEdit; sampleAppend])
  = visible (mergeAll emptyDocument [sampleEdit; sampleOther; sampleAppend])
  ∧ visible (mergeAll emptyDocument [sampleEdit; sampleOther; sampleAppend])
    = [entryOf sampleEdit; entryOf sampleOther]
  ∧ visible (mergeAll emptyDocument [sampleAppend; sampleRival])
    = visible (mergeAll emptyDocument [sampleRival; sampleAppend]).
Proof.
  split; [|split; [vm_compute; reflexivity|]].
  - refine (proj2 (merge_converges emptyDocument
                     [sampleAppend; sampleOther; sampleEdit; sampleAppend]
                     [sampleEdit; sampleOther; sampleAppend] _)).
    intros u. rewrite !elem_of_cons, !elem_of_nil. tauto.
  - refine (proj2 (merge_converges emptyDocument
                     [sampleAppend; sampleRival] [sampleRival; sampleAppend] _)).
    intros u. rewrite !elem_of_cons, !elem_of_nil. tauto.
Defined.

(** * Further properties of the services *)

(** ** SyncService *)

Lemma append_inv_head (s a b : string) : s +:+ a = s +:+ b → a = b.
Proof.
  induction s as [|c s IH]; simpl; intros Heq; [exact Heq|].
  injection Heq as Heq. apply IH. exact Heq.
Qed.

(** X1. Under one configuration two resources have the same room name only
    when they are the same resource: same type and same identifier. *)
Theorem roomName_inj (c : SyncConfiguration) (t1 t2 : ResourceType) (id1 id2 : string) :
  roomName c (resourceTypeName t1) id1 = roomName c (resourceTypeName t2) id2 →
  t1 = t2 ∧ id1 = id2.
Proof.
  unfold roomName. intros Heq.
  apply append_inv_head in Heq. simpl in Heq. injection Heq as Heq.
  destruct t1, t2; simpl in Heq; try discriminate Heq; (split; [reflexivity|]).
  - apply (append_inv_head "conversation-"). exact Heq.
  - apply (append_inv_head "assistant-"). exact Heq.
  - apply (append_inv_head "preference-"). exact Heq.
Qed.

Lemma roomName_inj_witness :
  roomName (defaultConfig None) (resourceTypeName conversation) "t1"
  = roomName (defaultConfig None) (resourceTypeName conversation) "t1"
  ∧ conversation = conversation ∧ "t1" = "t1".
Proof.
  split; [reflexivity|].
  apply (roomName_inj (defaultConfig None) conversation conversation "t1" "t1").
  reflexivity.
Defined.

(** X2. A resource that is created and then destroyed is gone: no document
    and no provider is registered for it, its document is no longer live,
    and the provider and the document have been destroyed in this order. *)
Theorem destroy_after_create (w : World) (rt : ResourceType) (id : string) :
  let room := roomName (config (sync w)) (resourceTypeName rt) id in
  let w1 := fst (createSyncDocument w rt id) in
  let w2 := destroySyncDocument w1 (resourceTypeName rt) id in
  getSyncDocument w2 (resourceTypeName rt) id = None
  ∧ providers (sync w2) !! room = None
  ∧ heap w2 !! next_ref w = None
  ∧ trace w2 = trace w ++
      [Log info "Creating sync document" room;
       ProviderCreated room (next_ref w);
       ProviderDestroyed room;
       DocDestroyed (next_ref w);
       Log info "Destroyed sync document" room].
Proof.
  intros room w1 w2. subst w1 w2.
  unfold destroySyncDocument, createSyncDocument, getSyncDocument. simpl.
  fold room. rewrite !lookup_insert_eq. simpl.
  rewrite !lookup_insert_eq. simpl. fold room.
  rewrite !lookup_delete_eq.
  repeat split. rewrite <- !app_assoc. reflexivity.
Qed.

(** X3. Creating a resource a second time orphans the first document: it
    stays live, but the registry no longer leads to it, its provider is
    replaced without being destroyed (the two creations destroy no provider),
    and destroying the resource afterwards destroys the second provider and
    the second document only: these are all the events. *)
Theorem second_create_orphans_first (w : World) (rt : ResourceType) (id : string) :
  let room := roomName (config (sync w)) (resourceTypeName rt) id in
  let first := next_ref w in
  let w2 := fst (createSyncDocument (fst (createSyncDocument w rt id)) rt id) in
  let w3 := destroySyncDocument w2 (resourceTypeName rt) id in
  heap w2 !! first = Some newDoc
  ∧ getSyncDocument w2 (resourceTypeName rt) id = Some (S first)
  ∧ prov_doc <$> (providers (sync w2) !! room) = Some (S first)
  ∧ heap w3 !! first = Some newDoc
  ∧ heap w3 !! S first = None
  ∧ getSyncDocument w3 (resourceTypeName rt) id = None
  ∧ ProviderCreated room first ∈ trace w3
  ∧ (DocDestroyed first ∉ drop (length (trace w)) (trace w3))
  ∧ (ProviderDestroyed room ∉ drop (length (trace w)) (trace w2))
  ∧ trace w3 = trace w ++
      [Log info "Creating sync document" room;
       ProviderCreated room first;
       Log info "Creating sync document" room;
       ProviderCreated room (S first);
       ProviderDestroyed room;
       DocDestroyed (S first);
       Log info "Destroyed sync document" room].
Proof.
  intros room first w2 w3. subst w2 w3.
  unfold destroySyncDocument, createSyncDocument, getSyncDocument. simpl.
  fold room first. rewrite !lookup_insert_eq. simpl.
  rewrite !lookup_insert_eq. simpl. fold room first.
  rewrite !lookup_delete_eq.
  assert (first ≠ S first) as Hne by lia.
  rewrite lookup_insert_ne by lia. rewrite lookup_insert_eq.
  rewrite lookup_delete_ne by lia.
  rewrite lookup_insert_ne by lia. rewrite lookup_insert_eq.
  repeat split.
  - rewrite <- !app_assoc. apply elem_of_app. right. set_solver.
  - rewrite <- !app_assoc. rewrite drop_app_length.
    intros Hin.
    repeat (apply elem_of_cons in Hin as [Hin|Hin];
            [try discriminate Hin; injection Hin; lia|]).
    apply elem_of_nil in Hin. exact Hin.
  - rewrite <- !app_assoc. rewrite drop_app_length.
    intros Hin.
    repeat (apply elem_of_cons in Hin as [Hin|Hin]; [discriminate Hin|]).
    apply elem_of_nil in Hin. exact Hin.
  - rewrite <- !app_assoc. reflexivity.
Qed.

(** ** ConversationSyncService *)

(** The world a successful start leaves, field by field. *)
Lemma startConversationSync_fields (w : World) (topicId : string)
    (db : gmap string (list Message)) :
  topicId ∉ activeConversations w →
  syncing w = false →
  messageDatabase w = Some db →
  let ydoc := next_ref w in
  let room := roomName (config (sync w)) "conversation" topicId in
  let msgs := default [] (db !! topicId) in
  let w' := fst (startConversationSync w topicId) in
  snd (startConversationSync w topicId) = Ok tt
  ∧ ydocs (sync w') = <[room := ydoc]> (ydocs (sync w))
  ∧ delete room (providers (sync w')) = delete room (providers (sync w))
  ∧ is_Some (providers (sync w') !! room)
  ∧ config (sync w') = config (sync w)
  ∧ heap w' = <[ydoc := hydrate topicId (now w) msgs newDoc]> (heap w)
  ∧ activeConversations w' = {[topicId]} ∪ activeConversations w
  ∧ yobservers w' = {["yjs-to-db-" +:+ topicId]} ∪ yobservers w
  ∧ syncing w' = false
  ∧ next_ref w' = S (next_ref w)
  ∧ messageDatabase w' = messageDatabase w
  ∧ now w' = now w.
Proof.
  intros Hna Hs Hdb ydoc room msgs w'. subst w'.
  unfold startConversationSync.
  destruct (decide (topicId ∈ activeConversations w)) as [Hin|_]; [contradiction|].
  unfold createSyncDocument, initializeConversationSync, getMessagesByTopicId. simpl.
  rewrite Hs, Hdb. simpl. fold room ydoc msgs.
  repeat split.
  - rewrite delete_insert_eq. reflexivity.
  - rewrite lookup_insert_eq. eauto.
  - apply map_eq. intros d. destruct (decide (d = ydoc)) as [->|Hd].
    + rewrite lookup_alter_eq, !lookup_insert_eq. reflexivity.
    + rewrite lookup_alter_ne by congruence. rewrite !lookup_insert_ne by congruence.
      reflexivity.
  - exact Hdb.
Qed.

(** X4. Stopping a conversation that was started undoes the start: the
    conversation is no longer active, no document and no provider is
    registered for it, its document is no longer live, its observer key is
    forgotten, the status is the inactive one, and stopping once more changes
    nothing. *)
Theorem stop_after_start (w : World) (topicId : string) (db : gmap string (list Message)) :
  topicId ∉ activeConversations w →
  syncing w = false →
  messageDatabase w = Some db →
  let room := roomName (config (sync w)) "conversation" topicId in
  let w2 := stopConversationSync (fst (startConversationSync w topicId)) topicId in
  (topicId ∉ activeConversations w2)
  ∧ getSyncDocument w2 "conversation" topicId = None
  ∧ providers (sync w2) !! room = None
  ∧ heap w2 !! next_ref w = None
  ∧ ("yjs-to-db-" +:+ topicId ∉ yobservers w2)
  ∧ getSyncStatus w2 topicId = {| isActive := false; peerCount := 0; lastSyncedAt := None |}
  ∧ stopConversationSync w2 topicId = w2.
Proof.
  intros Hna Hs Hdb room w2.
  destruct (startConversationSync_fields w topicId db Hna Hs Hdb)
    as (_ & Hy & _ & [p Hp] & Hc & Hh & Ha & Ho & _).
  fold room in Hy, Hp.
  set (w1 := fst (startConversationSync w topicId)) in *.
  assert (topicId ∈ activeConversations w1) as Hin.
  { rewrite Ha. apply elem_of_union. left. apply elem_of_singleton. reflexivity. }
  assert (topicId ∉ activeConversations w2) as Hout.
  { subst w2. unfold stopConversationSync.
    destruct (decide (topicId ∈ activeConversations w1)); [|contradiction].
    simpl. intros Hd. apply elem_of_difference in Hd as [_ Hd].
    apply Hd. apply elem_of_singleton. reflexivity. }
  assert (getSyncDocument w2 "conversation" topicId = None
          ∧ providers (sync w2) !! room = None
          ∧ heap w2 !! next_ref w = None
          ∧ ("yjs-to-db-" +:+ topicId ∉ yobservers w2)) as (Hdoc & Hprov & Hheap & Hobs).
  { subst w2. unfold stopConversationSync.
    destruct (decide (topicId ∈ activeConversations w1)); [|contradiction].
    unfold destroySyncDocument, cleanupConversationSync, getSyncDocument. simpl.
    rewrite Hc. fold room. rewrite Hp. simpl. rewrite Hy, lookup_insert_eq. simpl.
    rewrite Hc. fold room. rewrite !lookup_delete_eq.
    repeat split. intros Hd. apply elem_of_difference in Hd as [_ Hd].
    apply Hd. apply elem_of_singleton. reflexivity. }
  repeat split; try assumption.
  - unfold getSyncStatus. rewrite Hdoc. reflexivity.
  - unfold stopConversationSync.
    destruct (decide (topicId ∈ activeConversations w2)); [contradiction|reflexivity].
Qed.

Lemma stop_after_start_witness :
  ("t1" ∉ activeConversations sampleWorld)
  ∧ getSyncStatus (stopConversationSync (fst (startConversationSync sampleWorld "t1")) "t1") "t1"
    = {| isActive := false; peerCount := 0; lastSyncedAt := None |}.
Proof.
  assert ("t1" ∉ activeConversations sampleWorld) as Hna by (simpl; set_solver).
  split; [exact Hna|].
  destruct (stop_after_start sampleWorld "t1" {["t1" := [sampleMessage]]}
              Hna eq_refl eq_refl) as (_ & _ & _ & _ & _ & Hst & _).
  exact Hst.
Defined.

(** X5. When the adapter is busy ([syncing] is set), starting a conversation
    still succeeds and marks it active, but nothing is hydrated: the new
    document is empty, has no metadata, and no observer is registered for
    it. *)
Theorem start_while_adapter_busy (w : World) (topicId : string) :
  topicId ∉ activeConversations w →
  syncing w = true →
  let w' := fst (startConversationSync w topicId) in
  snd (startConversationSync w topicId) = Ok tt
  ∧ topicId ∈ activeConversations w'
  ∧ getSyncDocument w' "conversation" topicId = Some (next_ref w)
  ∧ heap w' !! next_ref w = Some newDoc
  ∧ yobservers w' = yobservers w
  ∧ getSyncStatus w' topicId = {| isActive := true; peerCount := 0; lastSyncedAt := None |}.
Proof.
  intros Hna Hs w'. subst w'.
  unfold startConversationSync.
  destruct (decide (topicId ∈ activeConversations w)) as [Hin|_]; [contradiction|].
  unfold createSyncDocument, initializeConversationSync. simpl. rewrite Hs. simpl.
  unfold getSyncStatus, getSyncDocument, metadataOf. simpl.
  rewrite !lookup_insert_eq. simpl.
  repeat split; [set_solver|].
  rewrite bool_decide_eq_true_2 by set_solver. reflexivity.
Qed.

Lemma start_while_adapter_busy_witness :
  ("t1" ∉ activeConversations (set_syncing true sampleWorld))
  ∧ heap (fst (startConversationSync (set_syncing true sampleWorld) "t1")) !! 0 = Some newDoc.
Proof.
  assert ("t1" ∉ activeConversations (set_syncing true sampleWorld)) as Hna
    by (simpl; set_solver).
  split; [exact Hna|].
  destruct (start_while_adapter_busy (set_syncing true sampleWorld) "t1" Hna eq_refl)
    as (_ & _ & _ & Hh & _).
  exact Hh.
Defined.

(** X6. When reading the stored messages fails, starting a conversation
    throws the error of the read and the conversation is not active; the
    adapter is free again; but the document and the provider created before
    the read stay registered, so a message sent afterwards is accepted into
    that document although the status says the conversation is not active. *)
Theorem start_with_failing_read (w : World) (topicId e : string) (m : Message) :
  topicId ∉ activeConversations w →
  syncing w = false →
  getMessagesByTopicId w topicId = Throw e →
  let room := roomName (config (sync w)) "conversation" topicId in
  let w' := fst (startConversationSync w topicId) in
  snd (startConversationSync w topicId) = Throw e
  ∧ (topicId ∉ activeConversations w')
  ∧ syncing w' = false
  ∧ getSyncDocument w' "conversation" topicId = Some (next_ref w)
  ∧ prov_doc <$> (providers (sync w') !! room) = Some (next_ref w)
  ∧ heap w' !! next_ref w = Some newDoc
  ∧ isActive (getSyncStatus w' topicId) = false
  ∧ snd (sendMessage w' topicId m) = Ok tt
  ∧ heap (fst (sendMessage w' topicId m)) !! next_ref w
    = Some (pushMessages [serializeMessage m] newDoc).
Proof.
  intros Hna Hs Hread room w'. subst w'.
  unfold startConversationSync.
  destruct (decide (topicId ∈ activeConversations w)) as [Hin|_]; [contradiction|].
  unfold createSyncDocument, initializeConversationSync. simpl. rewrite Hs.
  unfold getMessagesByTopicId in *. simpl.
  destruct (messageDatabase w) as [db|]; [discriminate Hread|].
  injection Hread as <-. simpl.
  unfold getSyncStatus, sendMessage, getSyncDocument. simpl. fold room.
  rewrite !lookup_insert_eq. simpl.
  rewrite lookup_alter_eq, lookup_insert_eq. simpl.
  rewrite bool_decide_eq_false_2 by exact Hna.
  repeat split. exact Hna.
Qed.

Lemma start_with_failing_read_witness :
  getMessagesByTopicId (initialWorld None None 100) "t1" = Throw "Datastore unavailable"
  ∧ snd (startConversationSync (initialWorld None None 100) "t1")
    = Throw "Datastore unavailable".
Proof.
  split; [reflexivity|].
  assert ("t1" ∉ activeConversations (initialWorld None None 100)) as Hna
    by (simpl; set_solver).
  destruct (start_with_failing_read (initialWorld None None 100) "t1"
              "Datastore unavailable" sampleMessage Hna eq_refl eq_refl) as (Hr & _).
  exact Hr.
Defined.

Lemma sendMessage_registered (w : World) (topicId : string) (m : Message) (d : DocRef) :
  getSyncDocument w "conversation" topicId = Some d →
  snd (sendMessage w topicId m) = Ok tt
  ∧ heap (fst (sendMessage w topicId m)) = alter (pushMessages [serializeMessage m]) d (heap w)
  ∧ sync (fst (sendMessage w topicId m)) = sync w
  ∧ activeConversations (fst (sendMessage w topicId m)) = activeConversations w.
Proof.
  intros Hd. unfold sendMessage. rewrite Hd. repeat split.
Qed.

(** X7. Messages sent one after the other to a conversation whose document
    is registered and live are appended to that document in the order of the
    calls, behind what it held; every other document, the registry and the
    active set stay as they were.  Whether the conversation is active is not
    asked. *)
Theorem sendAll_appends_in_order (ms : list Message) :
  ∀ (w : World) (topicId : string) (d : DocRef),
    getSyncDocument w "conversation" topicId = Some d →
    is_Some (heap w !! d) →
    messagesOf (sendAll w topicId ms) d = messagesOf w d ++ map serializeMessage ms
    ∧ (∀ d', d' ≠ d → heap (sendAll w topicId ms) !! d' = heap w !! d')
    ∧ sync (sendAll w topicId ms) = sync w
    ∧ activeConversations (sendAll w topicId ms) = activeConversations w.
Proof.
  induction ms as [|m ms IH]; intros w topicId d Hd [doc Hdoc].
  - simpl. rewrite app_nil_r. repeat split.
  - destruct (sendMessage_registered w topicId m d Hd) as (_ & Hh & Hs & Ha).
    set (w1 := fst (sendMessage w topicId m)) in *.
    assert (heap w1 !! d = Some (pushMessages [serializeMessage m] doc)) as Hdoc1.
    { rewrite Hh, lookup_alter_eq, Hdoc. reflexivity. }
    destruct (IH w1 topicId d) as (Hm & Ho & Hs' & Ha').
    { unfold getSyncDocument. rewrite Hs. exact Hd. }
    { eauto. }
    change (sendAll w topicId (m :: ms)) with (sendAll w1 topicId ms).
    split.
    { rewrite Hm. unfold messagesOf. rewrite Hdoc1, Hdoc. simpl.
      rewrite <- app_assoc. reflexivity. }
    split.
    { intros d' Hne. rewrite (Ho d' Hne), Hh. apply lookup_alter_ne. congruence. }
    split; congruence.
Qed.

Lemma sendAll_appends_in_order_witness :
  getSyncDocument syncedWorld "conversation" "t1" = Some 0
  ∧ messagesOf (sendAll syncedWorld "t1" [sampleMessage; sampleMessage]) 0
    = messagesOf syncedWorld 0 ++ map serializeMessage [sampleMessage; sampleMessage].
Proof.
  assert (getSyncDocument syncedWorld "conversation" "t1" = Some 0) as Hd
    by (vm_compute; reflexivity).
  split; [exact Hd|].
  refine (proj1 (sendAll_appends_in_order [sampleMessage; sampleMessage]
                   syncedWorld "t1" 0 Hd _)).
  vm_compute. eauto.
Defined.

(** X8. Right after a successful start the status of the conversation is
    active, with no peers, and its [lastSyncedAt] is the time of the
    hydration, or [null] when that time is 0. *)
Theorem status_after_start (w : World) (topicId : string) (db : gmap string (list Message)) :
  topicId ∉ activeConversations w →
  syncing w = false →
  messageDatabase w = Some db →
  getSyncStatus (fst (startConversationSync w topicId)) topicId
  = {| isActive := true; peerCount := 0;
       lastSyncedAt := if decide (now w = 0%N) then None else Some (MNum (now w)) |}.
Proof.
  intros Hna Hs Hdb.
  destruct (startConversationSync_fields w topicId db Hna Hs Hdb)
    as (_ & Hy & _ & _ & Hc & Hh & Ha & _).
  set (w1 := fst (startConversationSync w topicId)) in *.
  unfold getSyncStatus, getSyncDocument, metadataOf.
  rewrite Hc, Hy, lookup_insert_eq, Hh, lookup_insert_eq, Ha.
  rewrite bool_decide_eq_true_2
    by (apply elem_of_union; left; apply elem_of_singleton; reflexivity).
  f_equal. unfold hydrate, setMeta. simpl.
  rewrite lookup_insert_ne by discriminate. rewrite lookup_insert_eq.
  destruct (now w); reflexivity.
Qed.

Lemma status_after_start_witness :
  ("t1" ∉ activeConversations sampleWorld)
  ∧ getSyncStatus (fst (startConversationSync sampleWorld "t1")) "t1"
    = {| isActive := true; peerCount := 0; lastSyncedAt := Some (MNum 100) |}.
Proof.
  assert ("t1" ∉ activeConversations sampleWorld) as Hna by (simpl; set_solver).
  split; [exact Hna|].
  exact (status_after_start sampleWorld "t1" {["t1" := [sampleMessage]]} Hna eq_refl eq_refl).
Defined.

(** ** DatabaseSyncAdapter *)

(** X9. Serialising a message and reading it back keeps its identifier,
    content, role, creation time and model; the status comes back as it was
    when it is a non-empty string and as 'success' otherwise.  Reading back
    once more changes nothing further. *)
Theorem deserialize_serialize (m : Message) :
  deserializeMessage (serializeMessage m)
  = {| msg_id := msg_id m; msg_content := msg_content m; msg_role := msg_role m;
       msg_createdAt := msg_createdAt m; msg_modelId := msg_modelId m;
       msg_status := Some (orElse (msg_status m) "success") |}
  ∧ (∀ s, msg_status m = Some s → s ≠ "" → deserializeMessage (serializeMessage m) = m)
  ∧ deserializeMessage (serializeMessage (deserializeMessage (serializeMessage m)))
    = deserializeMessage (serializeMessage m).
Proof.
  split; [reflexivity|]. split.
  - intros s Hs Hne. destruct m as [i c r t mo st]. simpl in Hs. subst st.
    unfold deserializeMessage, serializeMessage. simpl.
    destruct s; [contradiction|reflexivity].
  - unfold deserializeMessage, serializeMessage. simpl. f_equal.
    destruct (msg_status m) as [[|a s]|]; reflexivity.
Qed.

Lemma deserialize_serialize_witness :
  deserializeMessage (serializeMessage
    (mkMessage "m1" "hi" "user" 5 (Some "gpt") (Some "pending")))
  = mkMessage "m1" "hi" "user" 5 (Some "gpt") (Some "pending").
Proof.
  apply (proj1 (proj2 (deserialize_serialize
           (mkMessage "m1" "hi" "user" 5 (Some "gpt") (Some "pending")))) "pending").
  - reflexivity.
  - discriminate.
Defined.

(** ** useMessageActions and SyncStatusIndicator *)

(** X10. The guarded send of the hook never throws: a conversation reported
    active has a document.  So the hook ends exactly as its datastore write
    ends, and when the conversation is not reported active the guarded send
    leaves the world alone. *)
Theorem hook_send_guarded (w : World) (topicId : string) (m : Message) :
  snd (syncIfActive w topicId m) = Ok tt
  ∧ snd (hookSendMessage w topicId m) = snd (upsertMessages w topicId m)
  ∧ (if isActive (getSyncStatus w topicId) then True
     else fst (syncIfActive w topicId m) = w).
Proof.
  assert (∀ w', snd (syncIfActive w' topicId m) = Ok tt) as Hguard.
  { intros w'. unfold syncIfActive, getSyncStatus, sendMessage.
    destruct (getSyncDocument w' "conversation" topicId) as [d|]; simpl.
    - destruct (bool_decide _); reflexivity.
    - reflexivity. }
  split; [apply Hguard|]. split.
  - unfold hookSendMessage, upsertMessages.
    destruct (messageDatabase w) as [db|]; simpl; [apply Hguard|reflexivity].
  - unfold syncIfActive. destruct (isActive (getSyncStatus w topicId)); [exact I|reflexivity].
Qed.

(** X11. The status dot is never green and the label of an active
    conversation always counts 0 peers, whatever the providers are connected
    to. *)
Theorem indicator_never_green (w : World) (topicId : string) :
  indicatorDot (getSyncStatus w topicId) ≠ "bg-green-500"
  ∧ indicatorText (getSyncStatus w topicId)
    = if isActive (getSyncStatus w topicId) then "Synced • 0 peer(s)" else "Sync disabled".
Proof.
  unfold indicatorDot, indicatorText.
  rewrite getSyncStatus_peerCount_zero.
  destruct (isActive (getSyncStatus w topicId)); split; try reflexivity; discriminate.
Qed.

(** ** OfflineSyncQueue *)

(** X12. [enqueue] puts the new mutation at the tail with retry count 0 and
    stores the whole log, so that a new process that calls [initialize] on
    this storage starts with exactly this queue; with nothing stored,
    [initialize] leaves the queue empty. *)
Theorem enqueue_stored_and_reloaded (s : QState) (type : UpdateType) (topicId : string)
    (data : SerializedMessage) (rnd : string) (w2 : World) :
  let s' := enqueue s type topicId data rnd in
  queue s' = queue s ++
    [{| q_id := "q-" +:+ pretty (now (qworld s)) +:+ "-" +:+ rnd;
        q_type := type; q_topicId := topicId; q_data := data;
        q_timestamp := now (qworld s); q_retryCount := 0 |}]
  ∧ asyncStorage s' !! QUEUE_KEY = Some (queue s')
  ∧ queue (initialize (newQueue w2 (asyncStorage s'))) = queue s'
  ∧ queue (initialize (newQueue w2 ∅)) = [].
Proof.
  intros s'. subst s'. unfold enqueue, initialize, newQueue, persistQueue. simpl.
  rewrite lookup_insert_eq. repeat split.
Qed.

Lemma processQueue_failing_head (s : QState) (u : QueuedUpdate) (rest : list QueuedUpdate) :
  isProcessing s = false →
  queue s = u :: rest →
  getSyncDocument (qworld s) "conversation" (q_topicId u) = None →
  S (q_retryCount u) < 3 →
  processQueue s
  = ({| qworld := qworld s; queue := bumpRetry u :: rest;
        isProcessing := false; asyncStorage := asyncStorage s |}, []).
Proof.
  intros Hp Hq Hdoc Hlt. unfold processQueue. rewrite Hp, Hq. simpl.
  unfold applyUpdate. rewrite Hdoc.
  destruct (q_retryCount u) as [|[|n]]; [reflexivity|reflexivity|lia].
Qed.

(** X13. A mutation at the head whose conversation has no document, and
    which has not reached the retry ceiling, blocks the drain: nothing is
    applied, nothing behind it is tried, and its retry count goes up in
    memory only.  The stored log is not written, so a new process that loads
    it finds the mutation with the retry count it was stored with. *)
Theorem failing_head_blocks_drain (s : QState) (u : QueuedUpdate) (rest : list QueuedUpdate)
    (w2 : World) :
  isProcessing s = false →
  queue s = u :: rest →
  getSyncDocument (qworld s) "conversation" (q_topicId u) = None →
  S (q_retryCount u) < 3 →
  asyncStorage s !! QUEUE_KEY = Some (queue s) →
  processQueue s
  = ({| qworld := qworld s; queue := bumpRetry u :: rest;
        isProcessing := false; asyncStorage := asyncStorage s |}, [])
  ∧ queue (initialize (newQueue w2 (asyncStorage (fst (processQueue s))))) = u :: rest.
Proof.
  intros Hp Hq Hdoc Hlt Hst.
  pose proof (processQueue_failing_head s u rest Hp Hq Hdoc Hlt) as Hdrain.
  split; [exact Hdrain|].
  rewrite Hdrain. unfold initialize, newQueue. simpl. rewrite Hst. exact Hq.
Qed.

Lemma failing_head_blocks_drain_witness :
  getSyncDocument syncedWorld "conversation" "t9" = None
  ∧ snd (processQueue (mkQState syncedWorld
                         [mkQueued "q-7-0.1" TMessage "t9" (serializeMessage sampleMessage) 7 0]
                         false
                         {[QUEUE_KEY :=
                             [mkQueued "q-7-0.1" TMessage "t9"
                                       (serializeMessage sampleMessage) 7 0]]}))
    = [].
Proof.
  assert (getSyncDocument syncedWorld "conversation" "t9" = None) as Hdoc
    by (vm_compute; reflexivity).
  split; [exact Hdoc|].
  refine (f_equal snd (proj1 (failing_head_blocks_drain
            (mkQState syncedWorld
               [mkQueued "q-7-0.1" TMessage "t9" (serializeMessage sampleMessage) 7 0]
               false
               {[QUEUE_KEY :=
                   [mkQueued "q-7-0.1" TMessage "t9" (serializeMessage sampleMessage) 7 0]]})
            (mkQueued "q-7-0.1" TMessage "t9" (serializeMessage sampleMessage) 7 0) []
            syncedWorld eq_refl eq_refl Hdoc _ _))).
  - simpl. lia.
  - vm_compute. reflexivity.
Defined.

(** X14. A new mutation whose conversation never gets a document is given up
    by the third drain: the first two drains leave it at the head with retry
    counts 1 and 2, the third reports its discard and goes on with the rest
    of the queue.  When it was alone, the queue ends empty while storage is
    exactly what it was before the first drain. *)
Theorem third_drain_discards (s : QState) (u : QueuedUpdate) (rest : list QueuedUpdate) :
  isProcessing s = false →
  queue s = u :: rest →
  q_retryCount u = 0 →
  getSyncDocument (qworld s) "conversation" (q_topicId u) = None →
  let s1 := fst (processQueue s) in
  let s2 := fst (processQueue s1) in
  let third := processQueue s2 in
  let given_up := bumpRetry (bumpRetry (bumpRetry u)) in
  queue s1 = bumpRetry u :: rest
  ∧ queue s2 = bumpRetry (bumpRetry u) :: rest
  ∧ snd (processQueue s) = [] ∧ snd (processQueue s1) = []
  ∧ snd third
    = Discarded given_up ::
      snd (drainLoop (emit (Log error "Update failed after 3 retries, discarding"
                                (q_id u)) (qworld s))
                     (asyncStorage s) rest)
  ∧ (rest = [] → queue (fst third) = [] ∧ asyncStorage (fst third) = asyncStorage s).
Proof.
  intros Hp Hq Hr Hdoc s1 s2 third given_up.
  assert (processQueue s = (mkQState (qworld s) (bumpRetry u :: rest) false (asyncStorage s), []))
    as H1.
  { apply processQueue_failing_head; try assumption. rewrite Hr. lia. }
  assert (processQueue (mkQState (qworld s) (bumpRetry u :: rest) false (asyncStorage s))
          = (mkQState (qworld s) (bumpRetry (bumpRetry u) :: rest) false (asyncStorage s), []))
    as H2.
  { apply (processQueue_failing_head
             (mkQState (qworld s) (bumpRetry u :: rest) false (asyncStorage s))
             (bumpRetry u) rest); try reflexivity; [exact Hdoc|].
    simpl. rewrite Hr. lia. }
  subst s1 s2 third. rewrite H1. simpl. rewrite H2. simpl.
  split; [reflexivity|]. split; [reflexivity|]. split; [reflexivity|]. split; [reflexivity|].
  unfold processQueue. simpl.
  unfold applyUpdate. simpl. rewrite Hdoc.
  destruct (drainLoop _ _ rest) as [[[w' st'] q'] effs] eqn:Hloop.
  split; [reflexivity|].
  intros ->. simpl in Hloop. injection Hloop as <- <- <- <-. split; reflexivity.
Qed.

Lemma third_drain_discards_witness :
  snd (processQueue (fst (processQueue (fst (processQueue
         (mkQState syncedWorld
            [mkQueued "q-7-0.1" TMessage "t9" (serializeMessage sampleMessage) 7 0]
            false ∅))))))
  = [Discarded (mkQueued "q-7-0.1" TMessage "t9" (serializeMessage sampleMessage) 7 3)].
Proof.
  refine (proj1 (proj2 (proj2 (proj2 (proj2 (third_drain_discards
            (mkQState syncedWorld
               [mkQueued "q-7-0.1" TMessage "t9" (serializeMessage sampleMessage) 7 0]
               false ∅)
            (mkQueued "q-7-0.1" TMessage "t9" (serializeMessage sampleMessage) 7 0) []
            _ _ _ _)))))).
  - reflexivity.
  - reflexivity.
  - reflexivity.
  - vm_compute. reflexivity.
Defined.

Lemma pushMessages_nil (d : YDoc) : pushMessages [] d = d.
Proof. destruct d as [ms md]. unfold pushMessages. simpl. rewrite app_nil_r. reflexivity. Qed.

Lemma applyUpdate_heap (w : World) (u : QueuedUpdate) (d : DocRef) :
  getSyncDocument w "conversation" (q_topicId u) = Some d →
  snd (applyUpdate w u) = Ok tt
  ∧ sync (fst (applyUpdate w u)) = sync w
  ∧ heap (fst (applyUpdate w u))
    = alter (pushMessages match q_type u with TMessage => [q_data u] | _ => [] end)
            d (heap w).
Proof.
  intros Hd. unfold applyUpdate. rewrite Hd. simpl.
  destruct (q_type u); repeat split.
Qed.

Lemma allLive_initialized (w : World) (q : list QueuedUpdate) :
  allLive w q → allInitialized w q.
Proof. intros Hl u Hu. destruct (Hl u Hu) as (d & Hd & _). rewrite Hd. eauto. Qed.

(** What the loop leaves in the documents when every mutation finds its
    document. *)
Lemma drainLoop_delivers (q : list QueuedUpdate) :
  ∀ w st, allLive w q →
    let w' := fst (fst (fst (drainLoop w st q))) in
    sync w' = sync w
    ∧ (∀ r, messagesOf w' r = messagesOf w r ++ flat_map (deliveredTo w r) q)
    ∧ (∀ r, metadata <$> (heap w' !! r) = metadata <$> (heap w !! r)).
Proof.
  induction q as [|u rest IH]; intros w st Hlive.
  - simpl. repeat split. intros r. rewrite app_nil_r. reflexivity.
  - destruct (Hlive u) as (d & Hd & [doc Hdoc]); [left|].
    destruct (applyUpdate_heap w u d Hd) as (Hok & Hs & Hh).
    rewrite drainLoop_cons.
    destruct (applyUpdate w u) as [w1 r1] eqn:Happ. simpl in Hok, Hs, Hh. subst r1.
    assert (allLive w1 rest) as Hlive1.
    { intros v Hv. destruct (Hlive v) as (dv & Hdv & [docv Hdocv]); [right; exact Hv|].
      exists dv. split; [unfold getSyncDocument; rewrite Hs; exact Hdv|].
      rewrite Hh. destruct (decide (dv = d)) as [->|Hne].
      - rewrite lookup_alter_eq, Hdoc. simpl. eauto.
      - rewrite lookup_alter_ne by congruence. eauto. }
    specialize (IH w1 (persistQueue rest st) Hlive1).
    destruct (drainLoop w1 (persistQueue rest st) rest) as [[[w' st'] q'] effs].
    simpl in IH |- *. destruct IH as (Hs' & Hm' & Hmeta').
    split; [congruence|]. split.
    + intros r. rewrite Hm'.
      assert (∀ v, deliveredTo w1 r v = deliveredTo w r v) as Hdel.
      { intros v. unfold deliveredTo, getSyncDocument. rewrite Hs. reflexivity. }
      rewrite (flat_map_ext _ _ Hdel), app_assoc. f_equal.
      unfold messagesOf, deliveredTo. rewrite Hh, Hd.
      destruct (decide (Some d = Some r)) as [[= ->]|Hne].
      * rewrite lookup_alter_eq, Hdoc. simpl. destruct (q_type u); simpl;
          rewrite ?app_nil_r; reflexivity.
      * rewrite lookup_alter_ne by congruence.
        destruct (heap w !! r); destruct (q_type u); rewrite ?app_nil_r; reflexivity.
    + intros r. rewrite Hmeta', Hh.
      destruct (decide (d = r)) as [->|Hne].
      * rewrite lookup_alter_eq, Hdoc. reflexivity.
      * rewrite lookup_alter_ne by congruence. reflexivity.
Qed.

Lemma deliveredTo_nothing (w : World) (r : DocRef) (q : list QueuedUpdate) :
  Forall (λ u, q_type u ≠ TMessage) q → flat_map (deliveredTo w r) q = [].
Proof.
  induction q as [|u q IH]; intros Hall; [reflexivity|].
  apply Forall_cons in Hall as [Hu Hq].
  simpl. rewrite (IH Hq). unfold deliveredTo.
  destruct (q_type u); [congruence|reflexivity|reflexivity].
Qed.

(** X15. When every queued mutation finds its document registered and live,
    a drain brings the data of the queued messages to their documents in
    enqueue order, behind what each document held, and to no other document;
    queued edits and deletes add nothing to any document; no metadata
    changes. *)
Theorem drain_delivers_in_order (s : QState) :
  isProcessing s = false →
  allLive (qworld s) (queue s) →
  let w' := qworld (fst (processQueue s)) in
  (∀ r, messagesOf w' r
        = messagesOf (qworld s) r ++ flat_map (deliveredTo (qworld s) r) (queue s))
  ∧ (∀ r, metadata <$> (heap w' !! r) = metadata <$> (heap (qworld s) !! r))
  ∧ (Forall (λ u, q_type u ≠ TMessage) (queue s) →
       ∀ r, messagesOf w' r = messagesOf (qworld s) r)
  ∧ queue (fst (processQueue s)) = [].
Proof.
  intros Hp Hlive w'.
  destruct (processQueue_all_applied s Hp (allLive_initialized _ _ Hlive)) as (_ & Hq).
  assert (w' = fst (fst (fst (drainLoop (qworld s) (asyncStorage s) (queue s))))) as Hw'.
  { subst w'. unfold processQueue. rewrite Hp. simpl.
    destruct (queue s) as [|u rest] eqn:Hqs; [reflexivity|].
    rewrite bool_decide_eq_false_2 by (simpl; lia).
    destruct (drainLoop _ _ _) as [[[w1 st1] q1] effs]. reflexivity. }
  destruct (drainLoop_delivers (queue s) (qworld s) (asyncStorage s) Hlive)
    as (_ & Hm & Hmeta).
  rewrite <- Hw' in Hm, Hmeta.
  split; [exact Hm|]. split; [exact Hmeta|]. split; [|exact Hq].
  intros Hall r. rewrite Hm.
  rewrite (deliveredTo_nothing _ r _ Hall). apply app_nil_r.
Qed.

Lemma drain_delivers_in_order_witness :
  isProcessing sampleQueue = false
  ∧ messagesOf (qworld (fst (processQueue sampleQueue))) 0
    = [serializeMessage sampleMessage; serializeMessage sampleMessage].
Proof.
  split; [reflexivity|].
  assert (allLive (qworld sampleQueue) (queue sampleQueue)) as Hlive.
  { intros u Hu. simpl in Hu. apply list_elem_of_singleton in Hu. subst u.
    exists 0. split; vm_compute; eauto. }
  exact (proj1 (drain_delivers_in_order sampleQueue eq_refl Hlive) 0).
Defined.

(** ** EncryptionService between two devices *)

Section KeyAgreement.
Context `{NaclBox}.

Hypothesis open_after_box : ∀ m n k,
  length n = nonceLength → length k = sharedKeyLength →
  box_open_after (box_after m n k) n k = Some m.

(** X16. Without a shared key both [encrypt] and [decrypt] throw 'Shared key
    not established'.  Once two devices have each called [setSharedKey] with
    the other's public key, and the key agreement gives both the same key,
    what one encrypts the other decrypts to the same data. *)
Theorem devices_exchange (a b : EncryptionService) (nonce data frame0 : bytes) :
  box_before (publicKey b) (secretKey a) = box_before (publicKey a) (secretKey b) →
  length (box_before (publicKey b) (secretKey a)) = sharedKeyLength →
  length nonce = nonceLength →
  let a' := setSharedKey a (publicKey b) in
  let b' := setSharedKey b (publicKey a) in
  (sharedKey a = None →
     encrypt a nonce data = Throw "Shared key not established"
     ∧ decrypt a frame0 = Throw "Shared key not established")
  ∧ ∃ frame, encrypt a' nonce data = Ok frame ∧ decrypt b' frame = Ok data
             ∧ decrypt a' frame = Ok data.
Proof.
  intros Hagree Hklen Hnlen a' b'.
  split.
  { intros Hnone. unfold encrypt, decrypt. rewrite Hnone. split; reflexivity. }
  exists (nonce ++ box_after data nonce (box_before (publicKey b) (secretKey a))).
  split; [reflexivity|].
  assert (∀ svc, sharedKey svc = Some (box_before (publicKey b) (secretKey a)) →
                 decrypt svc (nonce ++ box_after data nonce
                                         (box_before (publicKey b) (secretKey a)))
                 = Ok data) as Hdec.
  { intros svc Hk. unfold decrypt, sliceTo, sliceFrom. rewrite Hk, <- Hnlen.
    rewrite take_app_length, drop_app_length.
    rewrite open_after_box by assumption. reflexivity. }
  split; apply Hdec.
  - subst b'. unfold setSharedKey. simpl. rewrite Hagree. reflexivity.
  - reflexivity.
Qed.

End KeyAgreement.

Lemma devices_exchange_witness :
  decrypt (H := pairBox)
    (setSharedKey (H := pairBox)
       (mkEncryption (replicate 32 5%Z) (replicate 32 5%Z) None) (replicate 32 3%Z))
    (sampleNonce ++ box_after (NaclBox := pairBox) [1; 2; 3]%Z sampleNonce
                      (replicate 32 6%Z))
  = Ok [1; 2; 3]%Z.
Proof.
  destruct (@devices_exchange pairBox
              (λ m n k _ _, plainBoxOpen_box m n k)
              (mkEncryption (replicate 32 3%Z) (replicate 32 3%Z) None)
              (mkEncryption (replicate 32 5%Z) (replicate 32 5%Z) None)
              sampleNonce [1; 2; 3]%Z [] eq_refl eq_refl eq_refl)
    as (_ & frame & Henc & Hdec & _).
  injection Henc as <-. exact Hdec.
Defined.

(** ** PresenceService *)

(** X17. A user identifier that is not empty always gets one of the five
    colours, chosen by its first code unit alone; the empty identifier gets
    none ([undefined]), and so does the local presence built from it. *)
Theorem generateUserColor_range :
  (∀ c rest, ∃ col, generateUserColor (c :: rest) = Some col ∧ col ∈ presenceColors)
  ∧ (∀ c rest1 rest2, generateUserColor (c :: rest1) = generateUserColor (c :: rest2))
  ∧ generateUserColor [] = None
  ∧ (∀ a t, ∃ u, mapGet (clientID a) (states (initializeLocalPresence a [] t))
                 = Some (mkAwState (Some u) None None)
                 ∧ color u = None).
Proof.
  split; [|split; [|split]].
  - intros c rest. unfold generateUserColor.
    assert (N.to_nat (c mod 5) < length presenceColors) as Hlt.
    { simpl. pose proof (N.mod_upper_bound c 5). lia. }
    destruct (lookup_lt_is_Some_2 _ _ Hlt) as [col Hcol].
    exists col. split; [exact Hcol|].
    apply list_elem_of_lookup. eauto.
  - reflexivity.
  - reflexivity.
  - intros a t.
    exists {| userId := []; userName := "Mobile User"; deviceType := "mobile";
              color := None; activeMessageId := None; lastActivity := t |}.
    split; [|reflexivity].
    unfold initializeLocalPresence, setLocalState. simpl.
    induction (states a) as [|[k v] l IH]; simpl.
    + rewrite decide_True by reflexivity. reflexivity.
    + destruct (decide (k = clientID a)) as [->|Hne]; simpl.
      * rewrite decide_True by reflexivity. reflexivity.
      * rewrite decide_False by exact Hne. exact IH.
Qed.

Lemma getActiveUsers_mapSet (k : N) (v st : AwarenessState) (t : Z)
    (l : list (N * AwarenessState)) (c : N) :
  mapGet k l = Some st →
  st_user v = st_user st →
  getActiveUsers (mkAwareness c (mapSet k v l)) t = getActiveUsers (mkAwareness c l) t.
Proof.
  unfold getActiveUsers. cbn [states]. intros Hget Huser.
  induction l as [|[k' v'] l IH]; [discriminate Hget|].
  cbn [mapGet] in Hget. cbn [mapSet].
  destruct (decide (k' = k)) as [->|Hne].
  - injection Hget as ->. cbn [omap list_omap snd]. rewrite Huser. reflexivity.
  - cbn [omap list_omap snd]. rewrite (IH Hget). reflexivity.
Qed.

Lemma getActiveUsers_setLocalStateField (a : Awareness)
    (upd : AwarenessState → AwarenessState) (t : Z) :
  (∀ st, st_user (upd st) = st_user st) →
  getActiveUsers (setLocalStateField a upd) t = getActiveUsers a t.
Proof.
  intros Hupd. unfold setLocalStateField.
  destruct (mapGet (clientID a) (states a)) as [st|] eqn:Hget; [|reflexivity].
  unfold setLocalState. destruct a as [c l]. simpl in *.
  apply (getActiveUsers_mapSet c (upd st) st t l c Hget). apply Hupd.
Qed.

Lemma getActiveUsers_updateActivity (a : Awareness) (messageId : option string) (t now : Z) :
  getActiveUsers (updateActivity a messageId t) now = getActiveUsers a now.
Proof.
  unfold updateActivity.
  rewrite !getActiveUsers_setLocalStateField by reflexivity. reflexivity.
Qed.

Lemma elem_of_getActiveUsers (a : Awareness) (t : Z) (u : UserPresence) :
  u ∈ getActiveUsers a t
  ↔ (∃ c st, (c, st) ∈ states a ∧ st_user st = Some u) ∧ (t - lastActivity u < 60000)%Z.
Proof.
  unfold getActiveUsers. rewrite list_elem_of_omap. split.
  - intros ([c st] & Hin & Hf). simpl in Hf.
    destruct (st_user st) as [u'|] eqn:Hu; [|discriminate Hf].
    destruct (Z.ltb_spec (t - lastActivity u') 60000) as [Hlt|Hge]; [|discriminate Hf].
    injection Hf as <-. split; [eauto|exact Hlt].
  - intros ((c & st & Hin & Hu) & Hlt). exists (c, st). split; [exact Hin|].
    simpl. rewrite Hu.
    destruct (Z.ltb_spec (t - lastActivity u) 60000) as [_|Hge]; [reflexivity|lia].
Qed.

Lemma elem_of_mapSet (k : N) (v : AwarenessState) (l : list (N * AwarenessState)) :
  (k, v) ∈ mapSet k v l.
Proof.
  induction l as [|[k' v'] l IH]; simpl; [left|].
  destruct (decide (k' = k)); [left|right; exact IH].
Qed.

(** X18. [updateActivity] never changes what [getActiveUsers] answers: it
    sets 'lastActivity' beside the 'user' object, where [getActiveUsers] does
    not look.  So, however often the activity is updated after the presence
    was initialised at time [t0], the local user is reported active exactly
    while fewer than 60000 ms have passed since [t0]. *)
Theorem updateActivity_not_seen (a : Awareness) (localUserId : codeUnits) (t0 now : Z)
    (calls : list (option string * Z)) :
  let a1 := initializeLocalPresence a localUserId t0 in
  let a2 := foldl (λ a c, updateActivity a (fst c) (snd c)) a1 calls in
  let local := {| userId := localUserId; userName := "Mobile User";
                  deviceType := "mobile"; color := generateUserColor localUserId;
                  activeMessageId := None; lastActivity := t0 |} in
  getActiveUsers a2 now = getActiveUsers a1 now
  ∧ (local ∈ getActiveUsers a2 now ↔ (now - t0 < 60000)%Z).
Proof.
  intros a1 a2 local.
  assert (getActiveUsers a2 now = getActiveUsers a1 now) as Hsame.
  { subst a2. generalize a1. clear a1.
    induction calls as [|c calls IH]; intros a1; [reflexivity|].
    simpl. rewrite IH. apply getActiveUsers_updateActivity. }
  split; [exact Hsame|].
  rewrite Hsame, elem_of_getActiveUsers. simpl. split.
  - intros [_ Hlt]. exact Hlt.
  - intros Hlt. split; [|exact Hlt].
    exists (clientID a), (mkAwState (Some local) None None).
    split; [apply elem_of_mapSet|reflexivity].
Qed.

(** ** Conversations do not disturb each other *)

Lemma roomName_conversation_inj (c : SyncConfiguration) (t1 t2 : string) :
  roomName c "conversation" t1 = roomName c "conversation" t2 → t1 = t2.
Proof.
  unfold roomName. intros Heq.
  apply append_inv_head in Heq. simpl in Heq. injection Heq as Heq.
  exact Heq.
Qed.

Lemma registryWf_create (w : World) (rt : ResourceType) (id : string) :
  registryWf w → registryWf (fst (createSyncDocument w rt id)).
Proof.
  intros [Hlt Hinj]. unfold registryWf, createSyncDocument. simpl.
  set (room := roomName (config (sync w)) (resourceTypeName rt) id).
  split.
  - intros r d Hr. destruct (decide (room = r)) as [<-|Hne].
    + rewrite lookup_insert_eq in Hr. injection Hr as <-. lia.
    + rewrite lookup_insert_ne in Hr by exact Hne. specialize (Hlt r d Hr). lia.
  - intros r1 r2 d H1 H2.
    destruct (decide (room = r1)) as [<-|Hne1]; destruct (decide (room = r2)) as [<-|Hne2].
    + reflexivity.
    + rewrite lookup_insert_eq in H1. rewrite lookup_insert_ne in H2 by exact Hne2.
      injection H1 as <-. specialize (Hlt r2 _ H2). lia.
    + rewrite lookup_insert_eq in H2. rewrite lookup_insert_ne in H1 by exact Hne1.
      injection H2 as <-. specialize (Hlt r1 _ H1). lia.
    + rewrite lookup_insert_ne in H1 by exact Hne1.
      rewrite lookup_insert_ne in H2 by exact Hne2.
      exact (Hinj r1 r2 d H1 H2).
Qed.

Lemma registryWf_sub (w w' : World) :
  registryWf w →
  next_ref w ≤ next_ref w' →
  (∀ r d, ydocs (sync w') !! r = Some d → ydocs (sync w) !! r = Some d) →
  registryWf w'.
Proof.
  intros [Hlt Hinj] Hn Hsub. split.
  - intros r d Hr. specialize (Hlt r d (Hsub r d Hr)). lia.
  - intros r1 r2 d H1 H2. exact (Hinj r1 r2 d (Hsub _ _ H1) (Hsub _ _ H2)).
Qed.

Lemma initializeConversationSync_frame (w : World) (topicId : string) (ydoc : DocRef) :
  let w' := fst (initializeConversationSync w topicId ydoc) in
  sync w' = sync w
  ∧ next_ref w' = next_ref w
  ∧ activeConversations w' = activeConversations w
  ∧ (∀ d, d ≠ ydoc → heap w' !! d = heap w !! d).
Proof.
  unfold initializeConversationSync, getMessagesByTopicId.
  destruct (syncing w); simpl; [repeat split|].
  destruct (messageDatabase w); simpl; repeat split.
  intros d Hne. apply lookup_alter_ne. congruence.
Qed.

Lemma destroySyncDocument_wf (w : World) (resourceType resourceId : string) :
  registryWf w → registryWf (destroySyncDocument w resourceType resourceId).
Proof.
  intros Hwf. apply (registryWf_sub w); [exact Hwf| |].
  - unfold destroySyncDocument. simpl.
    destruct (providers (sync w) !! _); simpl; destruct (ydocs (sync w) !! _); simpl; lia.
  - intros r d. unfold destroySyncDocument. simpl.
    destruct (providers (sync w) !! _); simpl;
      destruct (ydocs (sync w) !! roomName (config (sync w)) resourceType resourceId)
        eqn:Hd; simpl; rewrite ?Hd; simpl; try (intros Hr; exact Hr);
      intros Hr; apply lookup_delete_Some in Hr as [_ Hr]; exact Hr.
Qed.

(** X19. The registry stays well formed: it is well formed when the
    services are loaded, and creating or destroying a resource, starting or
    stopping a conversation and sending a message keep every registered
    document an allocated object of its own, never shared by two rooms. *)
Theorem registryWf_kept :
  (∀ envKey db clock, registryWf (initialWorld envKey db clock))
  ∧ (∀ w, registryWf w →
       (∀ rt id, registryWf (fst (createSyncDocument w rt id)))
       ∧ (∀ rt id, registryWf (destroySyncDocument w rt id))
       ∧ (∀ t, registryWf (fst (startConversationSync w t)))
       ∧ (∀ t, registryWf (stopConversationSync w t))
       ∧ (∀ t m, registryWf (fst (sendMessage w t m)))).
Proof.
  split.
  { intros envKey db clock. split; simpl.
    - intros r d Hr. rewrite lookup_empty in Hr. discriminate Hr.
    - intros r1 r2 d Hr. rewrite lookup_empty in Hr. discriminate Hr. }
  intros w Hwf.
  split; [intros rt id; apply registryWf_create; exact Hwf|].
  split; [intros rt id; apply destroySyncDocument_wf; exact Hwf|].
  split; [|split].
  - intros t. unfold startConversationSync.
    destruct (decide (t ∈ activeConversations w)); [exact Hwf|].
    set (w0 := emit (Log info "Starting conversation sync" t) w).
    assert (registryWf w0) as Hwf0 by exact Hwf.
    pose proof (registryWf_create w0 conversation t Hwf0) as Hwf1.
    destruct (createSyncDocument w0 conversation t) as [w1 [d p]]. simpl in Hwf1.
    destruct (initializeConversationSync_frame w1 t d) as (Hs & Hn & _).
    destruct (initializeConversationSync w1 t d) as [w2 [[]|e]]; simpl in Hs, Hn |- *;
      (apply (registryWf_sub w1); [exact Hwf1|simpl; lia|simpl; rewrite Hs; auto]).
  - intros t. unfold stopConversationSync.
    destruct (decide (t ∈ activeConversations w)); [|exact Hwf].
    exact (destroySyncDocument_wf (cleanupConversationSync
             (emit (Log info "Stopping conversation sync" t) w) t) "conversation" t Hwf).
  - intros t m. unfold sendMessage.
    destruct (getSyncDocument w "conversation" t); exact Hwf.
Qed.

Lemma registryWf_kept_witness :
  registryWf sampleWorld ∧ registryWf (fst (startConversationSync sampleWorld "t1")).
Proof.
  destruct registryWf_kept as (Hinit & Hkept).
  pose proof (Hinit None (Some {["t1" := [sampleMessage]]}) 100%N) as Hwf.
  split; [exact Hwf|].
  destruct (Hkept sampleWorld Hwf) as (_ & _ & Hstart & _).
  exact (Hstart "t1").
Defined.

(** X20. In a well-formed registry, starting or stopping one conversation
    leaves every other conversation alone: the other's status is the same
    before and after, and so is its document. *)
Theorem conversations_isolated (w : World) (t1 t2 : string) :
  registryWf w →
  t1 ≠ t2 →
  getSyncStatus (fst (startConversationSync w t1)) t2 = getSyncStatus w t2
  ∧ getSyncStatus (stopConversationSync w t1) t2 = getSyncStatus w t2
  ∧ (∀ d2, getSyncDocument w "conversation" t2 = Some d2 →
       getSyncDocument (fst (startConversationSync w t1)) "conversation" t2 = Some d2
       ∧ heap (fst (startConversationSync w t1)) !! d2 = heap w !! d2
       ∧ getSyncDocument (stopConversationSync w t1) "conversation" t2 = Some d2
       ∧ heap (stopConversationSync w t1) !! d2 = heap w !! d2).
Proof.
  intros [Hlt Hinj] Hne.
  set (room1 := roomName (config (sync w)) "conversation" t1).
  set (room2 := roomName (config (sync w)) "conversation" t2).
  assert (room1 ≠ room2) as Hrooms.
  { intros Heq. apply Hne. exact (roomName_conversation_inj _ _ _ Heq). }
  (* what a start changes *)
  assert (config (sync (fst (startConversationSync w t1))) = config (sync w)
          ∧ ydocs (sync (fst (startConversationSync w t1))) !! room2
            = ydocs (sync w) !! room2
          ∧ (∀ d, d < next_ref w →
               heap (fst (startConversationSync w t1)) !! d = heap w !! d)
          ∧ (t2 ∈ activeConversations (fst (startConversationSync w t1))
             ↔ t2 ∈ activeConversations w)) as (Hc1 & Hy1 & Hh1 & Ha1).
  { unfold startConversationSync.
    destruct (decide (t1 ∈ activeConversations w)); [repeat split; auto|].
    unfold createSyncDocument. simpl. fold room1.
    set (w1 := set_sync _ _).
    destruct (initializeConversationSync_frame w1 t1 (next_ref w)) as (Hs & _ & Ha & Hh).
    assert (ydocs (sync w1) !! room2 = ydocs (sync w) !! room2) as Hy
      by (apply lookup_insert_ne; exact Hrooms).
    assert (∀ d, d < next_ref w → heap w1 !! d = heap w !! d) as Hhw
      by (intros d Hd; simpl; apply lookup_insert_ne; lia).
    destruct (initializeConversationSync w1 t1 (next_ref w)) as [w2 [[]|e]];
      simpl in Hs, Ha, Hh |- *; rewrite Hs; (split; [reflexivity|]);
      (split; [exact Hy|]);
      (split; [intros d Hd; rewrite Hh by lia; apply Hhw; exact Hd|]);
      rewrite Ha; simpl;
      first [reflexivity
            |rewrite elem_of_union, elem_of_singleton;
             split; [intros [Heq|Hin]; [congruence|exact Hin]|intros Hin; right; exact Hin]]. }
  (* what a stop changes *)
  assert (config (sync (stopConversationSync w t1)) = config (sync w)
          ∧ ydocs (sync (stopConversationSync w t1)) !! room2 = ydocs (sync w) !! room2
          ∧ (∀ d, ydocs (sync w) !! room2 = Some d →
               heap (stopConversationSync w t1) !! d = heap w !! d)
          ∧ (t2 ∈ activeConversations (stopConversationSync w t1)
             ↔ t2 ∈ activeConversations w)) as (Hc2 & Hy2 & Hh2 & Ha2).
  { unfold stopConversationSync.
    destruct (decide (t1 ∈ activeConversations w)); [|repeat split; auto].
    unfold destroySyncDocument, cleanupConversationSync. simpl. fold room1.
    destruct (providers (sync w) !! room1); simpl; fold room1;
      destruct (ydocs (sync w) !! room1) as [d1|] eqn:Hd1; simpl;
      (split; [reflexivity|]);
      (split; [rewrite ?lookup_delete_ne by exact Hrooms; reflexivity|]);
      (split;
         [|rewrite elem_of_difference, elem_of_singleton;
           split; [intros [Hin _]; exact Hin|intros Hin; split; [exact Hin|congruence]]]);
      intros d Hd; try reflexivity;
      apply lookup_delete_ne; intros ->; apply Hrooms; exact (Hinj _ _ _ Hd1 Hd). }
  assert (∀ w', config (sync w') = config (sync w) →
                ydocs (sync w') !! room2 = ydocs (sync w) !! room2 →
                (∀ d, ydocs (sync w) !! room2 = Some d → heap w' !! d = heap w !! d) →
                (t2 ∈ activeConversations w' ↔ t2 ∈ activeConversations w) →
                getSyncStatus w' t2 = getSyncStatus w t2) as Hstatus.
  { intros w' Hc Hy Hh Ha. unfold getSyncStatus, getSyncDocument, metadataOf.
    rewrite Hc. fold room2. rewrite Hy.
    destruct (ydocs (sync w) !! room2) as [d2|] eqn:Hd2; [|reflexivity].
    rewrite (Hh d2 eq_refl). f_equal. apply bool_decide_ext. exact Ha. }
  split.
  { apply Hstatus; try assumption. intros d Hd. apply Hh1. exact (Hlt _ _ Hd). }
  split.
  { apply Hstatus; assumption. }
  intros d2 Hd2. unfold getSyncDocument in *. fold room2 in Hd2.
  rewrite Hc1, Hc2. fold room2. rewrite Hy1, Hy2.
  split; [exact Hd2|]. split; [apply Hh1; exact (Hlt _ _ Hd2)|].
  split; [exact Hd2|]. apply Hh2. exact Hd2.
Qed.

Lemma conversations_isolated_witness :
  "t2" ≠ "t1"
  ∧ getSyncStatus (stopConversationSync syncedWorld "t2") "t1" = getSyncStatus syncedWorld "t1"
  ∧ getSyncStatus (fst (startConversationSync syncedWorld "t2")) "t1"
    = getSyncStatus syncedWorld "t1".
Proof.
  assert ("t2" ≠ "t1") as Hne by discriminate.
  assert (registryWf syncedWorld) as Hwf.
  { split.
    - intros r d Hr. change (ydocs (sync syncedWorld))
        with (<["the-boss-conversation-t1" := 0]> (∅ : gmap string DocRef)) in Hr.
      apply lookup_insert_Some in Hr as [[_ <-]|[_ Hr]]; [vm_compute; lia|].
      rewrite lookup_empty in Hr. discriminate Hr.
    - intros r1 r2 d H1 H2.
      change (ydocs (sync syncedWorld))
        with (<["the-boss-conversation-t1" := 0]> (∅ : gmap string DocRef)) in H1, H2.
      apply lookup_insert_Some in H1 as [[<- _]|[_ H1]];
        [|rewrite lookup_empty in H1; discriminate H1].
      apply lookup_insert_Some in H2 as [[<- _]|[_ H2]];
        [reflexivity|rewrite lookup_empty in H2; discriminate H2]. }
  destruct (conversations_isolated syncedWorld "t2" "t1" Hwf Hne) as (Hstart & Hstop & _).
  split; [exact Hne|]. split; [exact Hstop|exact Hstart].
Defined.
